(** * highlight-date: date extraction, distance bucketing and decoration registry

    A shallow embedding of the two variants of [src/extension.ts]:

    - module [Linear]: the word-boundary / calendar-day / per-distance variant
      (src/src/extension.ts);
    - module [Fib]: the whitespace-flanked / validated / business-day /
      Fibonacci-bucket variant (the extension.ts in src/unnamed/part_000,
      which imports date-fns).

    Conventions of the embedding.
    - A document text is the list of its UTF-16 code units.
    - A JavaScript [Map] is an association list in insertion order ([JSMap]).
    - A JavaScript number that may be [NaN] is a [jsnum]; numbers that the code
      only ever produces as integers are [Z].
    - Editor positions are represented by the (clamped) character offset that
      [document.positionAt] was called with.
    - Decoration types handed out by the editor are numbered in creation
      order; the editor side keeps a log of creations and of [dispose] calls. *)

From Stdlib Require Import String Ascii.
From Stdlib Require Import Bool Arith ZArith NArith QArith Qround Qminmax DecimalString Lia List Sorted Permutation.
Import ListNotations.
Close Scope Q_scope.
Local Open Scope nat_scope.

Set Implicit Arguments.

(* ------------------------------------------------------------------ *)
(** ** JavaScript [Map]: association list in insertion order *)

Module JSMap.
Section Defs.
Variables (K V : Type).
Variable eqb : K -> K -> bool.

Definition t := list (K * V).

Definition empty : t := [].

Fixpoint get (k : K) (m : t) : option V :=
  match m with
  | [] => None
  | (k', v) :: m' => if eqb k k' then Some v else get k m'
  end.

Definition has (k : K) (m : t) : bool :=
  match get k m with Some _ => true | None => false end.

(** [set] keeps the position of an existing key and appends a new one. *)
Fixpoint set (k : K) (v : V) (m : t) : t :=
  match m with
  | [] => [(k, v)]
  | (k', v') :: m' => if eqb k k' then (k', v) :: m' else (k', v') :: set k v m'
  end.

Definition keys (m : t) : list K := map fst m.
Definition values (m : t) : list V := map snd m.
End Defs.
End JSMap.

(* ------------------------------------------------------------------ *)
(** ** JavaScript numbers that may be NaN *)

Inductive jsnum : Type :=
| Num (z : Z)
| NaN.

(** SameValueZero, the key comparison of [Map]. *)
Definition jsnum_eqb (a b : jsnum) : bool :=
  match a, b with
  | Num x, Num y => Z.eqb x y
  | NaN, NaN => true
  | _, _ => false
  end.

(** [a <= 0]; every comparison with NaN is false. *)
Definition jsnum_le0 (a : jsnum) : bool :=
  match a with Num x => Z.leb x 0 | NaN => false end.

(** [a >= n]. *)
Definition jsnum_ge (a : jsnum) (n : Z) : bool :=
  match a with Num x => Z.leb n x | NaN => false end.

(* ------------------------------------------------------------------ *)
(** ** Texts and the two date patterns *)

Definition text := list N.

Definition code_of_ascii (c : ascii) : N := N_of_ascii c.

Fixpoint text_of_string (s : string) : text :=
  match s with
  | EmptyString => []
  | String c s' => code_of_ascii c :: text_of_string s'
  end.

(** [\d] without the unicode flag: ASCII digits only. *)
Definition is_digit (c : N) : bool := (48 <=? c)%N && (c <=? 57)%N.

(** [\w]: ASCII letters, digits and underscore. *)
Definition is_word (c : N) : bool :=
  is_digit c
  || ((65 <=? c)%N && (c <=? 90)%N)
  || ((97 <=? c)%N && (c <=? 122)%N)
  || (c =? 95)%N.

(** [\s]: ECMAScript WhiteSpace and LineTerminator code units. *)
Definition is_space (c : N) : bool :=
  ((9 <=? c)%N && (c <=? 13)%N)
  || (c =? 32)%N || (c =? 160)%N || (c =? 5760)%N
  || ((8192 <=? c)%N && (c <=? 8202)%N)
  || (c =? 8232)%N || (c =? 8233)%N || (c =? 8239)%N || (c =? 8287)%N
  || (c =? 12288)%N || (c =? 65279)%N.

Definition is_hyphen (c : N) : bool := (c =? 45)%N.

Definition testAt (p : N -> bool) (t : text) (i : nat) : bool :=
  match nth_error t i with
  | Some c => p c
  | None => false
  end.

(** The consuming part of both patterns: [\d{4}-\d{2}-\d{2}] at offset [i]. *)
Definition shapeAt (t : text) (i : nat) : bool :=
  testAt is_digit t i && testAt is_digit t (i + 1)
  && testAt is_digit t (i + 2) && testAt is_digit t (i + 3)
  && testAt is_hyphen t (i + 4)
  && testAt is_digit t (i + 5) && testAt is_digit t (i + 6)
  && testAt is_hyphen t (i + 7)
  && testAt is_digit t (i + 8) && testAt is_digit t (i + 9).

Definition tokenLength : nat := 10.

(** [\b] at offset [i]: exactly one of the two neighbours is a word character;
    outside the text counts as a non-word character. *)
Definition wordBoundary (t : text) (i : nat) : bool :=
  xorb (match i with O => false | S j => testAt is_word t j end)
       (testAt is_word t i).

(** [(?<=\s|^)] at offset [i]. *)
Definition behindSpaceOrStart (t : text) (i : nat) : bool :=
  match i with
  | O => true
  | S j => testAt is_space t j
  end.

(** [(?=\s|$)] at offset [i]; without the [m] flag [$] is the end of input. *)
Definition aheadSpaceOrEnd (t : text) (i : nat) : bool :=
  testAt is_space t i || Nat.eqb i (length t).

(** [/\b\d{4}-\d{2}-\d{2}\b/] matches at offset [i]. *)
Definition wordBoundaryMatchAt (t : text) (i : nat) : bool :=
  wordBoundary t i && shapeAt t i && wordBoundary t (i + tokenLength).

(** [/(?<=\s|^)\d{4}-\d{2}-\d{2}(?=\s|$)/] matches at offset [i]. *)
Definition whitespaceMatchAt (t : text) (i : nat) : bool :=
  behindSpaceOrStart t i && shapeAt t i && aheadSpaceOrEnd t (i + tokenLength).

(** *** [RegExp.prototype.exec] with the [g] flag, and the [while] loop over it *)

Section Exec.
Variable matchAt : text -> nat -> bool.

(** First offset in [i, i + n) at which the pattern matches. *)
Fixpoint search (t : text) (i n : nat) : option nat :=
  match n with
  | O => None
  | S n' => if matchAt t i then Some i else search t (S i) n'
  end.

(** [exec] tries every start offset from [lastIndex] up to the end of input. *)
Definition exec (t : text) (lastIndex : nat) : option nat :=
  search t lastIndex (S (length t) - lastIndex).

(** [while ((match = dateRegex.exec(text)))]: after a match [lastIndex] is
    the end of the match.  The fuel bounds the number of iterations. *)
Fixpoint execLoop (t : text) (fuel lastIndex : nat) : list nat :=
  match fuel with
  | O => []
  | S fuel' =>
      match exec t lastIndex with
      | None => []
      | Some i => i :: execLoop t fuel' (i + tokenLength)
      end
  end.

Definition allMatches (t : text) : list nat := execLoop t (S (length t)) 0.
End Exec.

(** [match[0]]: the matched token. *)
Definition tokenAt (t : text) (i : nat) : text := firstn tokenLength (skipn i t).

(** Decimal value of the [n] code units starting at offset [i] of a token
    (the token consists of ASCII digits and hyphens). *)
Definition digitValue (c : N) : Z := Z.of_N c - 48.

Fixpoint decimalOf (cs : text) (acc : Z) : Z :=
  match cs with
  | [] => acc
  | c :: cs' => decimalOf cs' (10 * acc + digitValue c)
  end.

Definition field (tok : text) (i n : nat) : Z := decimalOf (firstn n (skipn i tok)) 0.

Definition yearOf (tok : text) : Z := field tok 0 4.
Definition monthOf (tok : text) : Z := field tok 5 2.
Definition dayOf (tok : text) : Z := field tok 8 2.

(* ------------------------------------------------------------------ *)
(** ** Calendar *)

Local Open Scope Z_scope.

Definition isLeapYear (y : Z) : bool :=
  (y mod 400 =? 0) || ((y mod 4 =? 0) && negb (y mod 100 =? 0)).

Definition daysInMonth (y m : Z) : Z :=
  if m =? 2 then (if isLeapYear y then 29 else 28)
  else if (m =? 4) || (m =? 6) || (m =? 9) || (m =? 11) then 30
  else 31.

(** A real calendar date in the sense of the specification. *)
Definition realCalendarDate (y m d : Z) : bool :=
  (1 <=? m) && (m <=? 12) && (1 <=? d) && (d <=? daysInMonth y m).

(** Number of days from 1970-01-01 to the proleptic Gregorian date [y-m-d]. *)
Definition daysFromCivil (y m d : Z) : Z :=
  let y' := if m <=? 2 then y - 1 else y in
  let era := y' / 400 in
  let yoe := y' - era * 400 in
  let mp := if m <=? 2 then m + 9 else m - 3 in
  let doy := (153 * mp + 2) / 5 + d - 1 in
  let doe := yoe * 365 + yoe / 4 - yoe / 100 + doy in
  era * 146097 + doe - 719468.

Definition msPerDay : Z := 1000 * 60 * 60 * 24.

(** The time value of the ECMAScript date-only form [YYYY-MM-DD]: midnight UTC. *)
Definition utcMidnight (tok : text) : Z :=
  msPerDay * daysFromCivil (yearOf tok) (monthOf tok) (dayOf tok).

(** What the code takes from its JavaScript host.
    - [legacyDate]: the value of [new Date(s)] for a string of the date
      pattern whose fields are out of range; ECMAScript leaves it to the
      implementation (NaN, or a rolled-over date).
    - [localDay]: the local calendar day (days since 1970-01-01) that contains
      a given instant; this is what [setHours(0, 0, 0, 0)] truncates to. *)
Record Host : Type := {
  legacyDate : text -> jsnum;
  localDay : Z -> Z
}.

(** [new Date(dateStr)] for a string of the date pattern. *)
Definition newDate (H : Host) (tok : text) : jsnum :=
  if realCalendarDate (yearOf tok) (monthOf tok) (dayOf tok)
  then Num (utcMidnight tok)
  else legacyDate H tok.

(** A host in the UTC zone that rejects every out-of-range field. *)
Definition strictUTC : Host :=
  {| legacyDate := fun _ => NaN; localDay := fun ms => ms / msPerDay |}.

(** A host five hours west of UTC. *)
Definition strictWest : Host :=
  {| legacyDate := fun _ => NaN; localDay := fun ms => (ms - 5 * 3600000) / msPerDay |}.

Local Close Scope Z_scope.

(* ------------------------------------------------------------------ *)
(** ** The editor side and the decoration registry *)

Definition Handle := nat.
Definition Range := (nat * nat)%type.

Record DecorationRenderOptions : Type := {
  backgroundColor : string;
  color : string
}.

Record Editor : Type := {
  document : text;
  (** ranges currently rendered, per decoration type *)
  rendered : JSMap.t Handle (list Range)
}.

(** [document.positionAt(offset)]: the offset clamped to the document. *)
Definition positionAt (t : text) (offset : Z) : nat :=
  Z.to_nat (Z.max 0 (Z.min (Z.of_nat (length t)) offset)).

(** [editor.setDecorations(h, ranges)] replaces the ranges rendered for [h]. *)
Definition setDecorations (h : Handle) (rs : list Range) (e : Editor) : Editor :=
  {| document := document e; rendered := JSMap.set Nat.eqb h rs (rendered e) |}.

Section Engine.
(** The type of the keys of [futureDecorationTypes] and [decorationsMap]. *)
Variable K : Type.
Variable K_eqb : K -> K -> bool.
(** [key <= 0] *)
Variable K_le0 : K -> bool.
Variable calculateColor : K -> string.
Variables PAST_COLOR TEXT_COLOR : string.

Record State : Type := {
  (** every [createTextEditorDecorationType] call so far, oldest first *)
  created : list (Handle * DecorationRenderOptions);
  (** every [dispose()] call on a decoration type so far, oldest first *)
  disposed : list Handle;
  futureDecorationTypes : JSMap.t K Handle;
  (** [context.subscriptions], decoration types only *)
  subscriptions : list Handle;
  activeEditor : option Editor
}.

(** [pastDateDecorationType] is the first decoration type ever created. *)
Definition pastDateDecorationType : Handle := 0.

(** Module load: the two module-level constants are initialised. *)
Definition moduleLoad : State :=
  {| created := [(pastDateDecorationType,
                  {| backgroundColor := PAST_COLOR; color := TEXT_COLOR |})];
     disposed := [];
     futureDecorationTypes := JSMap.empty K Handle;
     subscriptions := [];
     activeEditor := None |}.

(** [vscode.window.createTextEditorDecorationType(options)] *)
Definition createTextEditorDecorationType (o : DecorationRenderOptions) (s : State)
  : Handle * State :=
  let h := length (created s) in
  (h, {| created := created s ++ [(h, o)];
         disposed := disposed s;
         futureDecorationTypes := futureDecorationTypes s;
         subscriptions := subscriptions s;
         activeEditor := activeEditor s |}).

(** [getOrCreateDecorationType]; the [has]/[get] pair is one lookup. *)
Definition getOrCreateDecorationType (key : K) (s : State) : Handle * State :=
  if K_le0 key then (pastDateDecorationType, s)
  else
    match JSMap.get K_eqb key (futureDecorationTypes s) with
    | Some h => (h, s)
    | None =>
        let (h, s1) := createTextEditorDecorationType
                         {| backgroundColor := calculateColor key;
                            color := TEXT_COLOR |} s in
        (h, {| created := created s1;
               disposed := disposed s1;
               futureDecorationTypes :=
                 JSMap.set K_eqb key h (futureDecorationTypes s1);
               subscriptions := subscriptions s1 ++ [h];
               activeEditor := activeEditor s1 |})
    end.

Definition withEditor (e : Editor) (s : State) : State :=
  {| created := created s;
     disposed := disposed s;
     futureDecorationTypes := futureDecorationTypes s;
     subscriptions := subscriptions s;
     activeEditor := Some e |}.

(** [decorationsMap.get(key)!.push(decoration)], after creating the entry
    when the key is new. *)
Definition pushDecoration (key : K) (r : Range) (m : JSMap.t K (list Range))
  : JSMap.t K (list Range) :=
  match JSMap.get K_eqb key m with
  | Some rs => JSMap.set K_eqb key (rs ++ [r]) m
  | None => JSMap.set K_eqb key [r] m
  end.

(** The clearing loop: the past type, then every future type. *)
Definition clearDecorations (s : State) (e : Editor) : Editor :=
  fold_left (fun e' h => setDecorations h [] e')
            (JSMap.values (futureDecorationTypes s))
            (setDecorations pastDateDecorationType [] e).

(** One iteration of [decorationsMap.forEach]. *)
Definition applyGroup (se : State * Editor) (g : K * list Range) : State * Editor :=
  let (s, e) := se in
  let (h, s') := getOrCreateDecorationType (fst g) s in
  (s', setDecorations h (snd g) e).

(** The second half of [updateDecorations]: clear, then apply every group. *)
Definition render (groups : JSMap.t K (list Range)) (e : Editor) (s : State) : State :=
  let (s', e') := fold_left applyGroup groups (s, clearDecorations s e) in
  withEditor e' s'.

(** [deactivate] *)
Definition deactivate (s : State) : State :=
  {| created := created s;
     disposed := disposed s ++ [pastDateDecorationType]
                 ++ JSMap.values (futureDecorationTypes s);
     futureDecorationTypes := JSMap.empty K Handle;
     subscriptions := subscriptions s;
     activeEditor := activeEditor s |}.

(** [onDidChangeActiveTextEditor]: the assignment to [activeEditor]. *)
Definition setActiveEditor (e : option Editor) (s : State) : State :=
  {| created := created s;
     disposed := disposed s;
     futureDecorationTypes := futureDecorationTypes s;
     subscriptions := subscriptions s;
     activeEditor := e |}.
End Engine.

(* ------------------------------------------------------------------ *)
(** ** Operation sequences of the registry *)

Section Operations.
Variable K : Type.
Variable K_eqb : K -> K -> bool.
Variable K_le0 : K -> bool.
Variable calculateColor : K -> string.
Variable TEXT_COLOR : string.

Let lookup := getOrCreateDecorationType K_eqb K_le0 calculateColor TEXT_COLOR.

(** One step of normal operation: a handle lookup, the rendering half of an
    update cycle (for any [decorationsMap]), or a change of active editor. *)
Inductive step : State K -> State K -> Prop :=
| step_lookup : forall key s, step s (snd (lookup key s))
| step_render : forall groups e s,
    step s (render K_eqb K_le0 calculateColor TEXT_COLOR groups e s)
| step_editor : forall e s, step s (setActiveEditor e s).

(** States of normal operation: everything before [deactivate]. *)
Inductive reachable (PAST_COLOR : string) : State K -> Prop :=
| reach_load : reachable PAST_COLOR (moduleLoad K PAST_COLOR TEXT_COLOR)
| reach_step : forall s s',
    reachable PAST_COLOR s -> step s s' -> reachable PAST_COLOR s'.

(** States of the whole lifetime: [deactivate] may have run, and update
    cycles may follow it (a debounce timer that was still armed). *)
Inductive lifetime (PAST_COLOR : string) : State K -> Prop :=
| life_load : lifetime PAST_COLOR (moduleLoad K PAST_COLOR TEXT_COLOR)
| life_step : forall s s',
    lifetime PAST_COLOR s -> step s s' -> lifetime PAST_COLOR s'
| life_deactivate : forall s,
    lifetime PAST_COLOR s -> lifetime PAST_COLOR (deactivate s).

(** Shape of the registry at any time of the extension's life. *)
Definition wellFormed (s : State K) : Prop :=
  map fst (created s) = seq 0 (length (created s))
  /\ 1 <= length (created s)
  /\ NoDup (JSMap.keys (futureDecorationTypes s))
  /\ (forall k, In k (JSMap.keys (futureDecorationTypes s)) -> K_le0 k = false)
  /\ (forall h, In h (JSMap.values (futureDecorationTypes s)) ->
                1 <= h < length (created s))
  /\ NoDup (JSMap.values (futureDecorationTypes s)).

(** What holds in addition as long as [deactivate] has not run. *)
Definition pristine (s : State K) : Prop :=
  disposed s = []
  /\ JSMap.values (futureDecorationTypes s) = seq 1 (length (created s) - 1)
  /\ subscriptions s = JSMap.values (futureDecorationTypes s).
End Operations.

(** The ranges the active editor renders for a decoration type: [None] when
    there is no active editor or [setDecorations] was never called for it. *)
Definition shownRanges (K : Type) (s : State K) (h : Handle) : option (list Range) :=
  match activeEditor s with
  | Some e => JSMap.get Nat.eqb h (rendered e)
  | None => None
  end.

(* ------------------------------------------------------------------ *)
(** ** Numbers as text, and [Math.round] / [Math.ceil] *)

(** Template-literal interpolation of an integer. *)
Definition showZ (z : Z) : string := NilZero.string_of_int (Z.to_int z).

(** [Math.round]: nearest integer, halves towards plus infinity.  It is
    applied below to values whose exact value is a multiple of 1/10 of
    magnitude below 1000.  The double computed by the code is that value when
    it is a half-integer, and lies within 1e-12 of it otherwise, so rounding
    the exact rational gives the integer the code gives. *)
Definition Math_round (q : Q) : Z := Qfloor (q + (1 # 2))%Q.

(** [Math.ceil(a / b)] for integers [a] and [b > 0] (here [b] is one day in
    milliseconds and [|a|] is far below 2^53, so the double quotient lies on
    the same side of every integer as the exact one). *)
Definition ceilDiv (a b : Z) : Z := (- ((- a) / b))%Z.

(* ------------------------------------------------------------------ *)
(** ** Variant 1: src/src/extension.ts *)

Module Linear.

Definition PAST_COLOR : string := "rgb(255, 0, 0)".
Definition TEXT_COLOR : string := "white".

Definition redValue (d : Z) : Q :=
  Qmax 0 (255 - (inject_Z (d * 3 * 255) / 50))%Q.

Definition blueValue (d : Z) : Q :=
  Qmin 255 (inject_Z (d * 3 * 255) / 50)%Q.

(** [calculateColor] *)
Definition calculateColor (diffDays : jsnum) : string :=
  if jsnum_le0 diffDays then "rgb(255, 0, 0)"
  else if jsnum_ge diffDays 50 then "rgb(0, 0, 255)"
  else
    match diffDays with
    | Num d =>
        "rgb(" ++ showZ (Math_round (redValue d)) ++ ", 0, "
               ++ showZ (Math_round (blueValue d)) ++ ")"
    | NaN => "rgb(NaN, 0, NaN)"
    end.

Definition State := State jsnum.

Definition moduleLoad : State := moduleLoad jsnum PAST_COLOR TEXT_COLOR.

(** [getOrCreateDecorationType] *)
Definition getOrCreateDecorationType : jsnum -> State -> Handle * State :=
  getOrCreateDecorationType jsnum_eqb jsnum_le0 calculateColor TEXT_COLOR.

(** [Math.ceil(diffTime / (1000 * 60 * 60 * 24))] with
    [diffTime = date.getTime() - today.getTime()]. *)
Definition diffDaysOf (date : jsnum) (today : Z) : jsnum :=
  match date with
  | Num ms => Num (ceilDiv (ms - today) msPerDay)
  | NaN => NaN
  end.

Definition rangeOf (t : text) (i : nat) : Range :=
  (positionAt t (Z.of_nat i), positionAt t (Z.of_nat i + Z.of_nat tokenLength)).

(** [diffDays] as computed for the match at offset [i]. *)
Definition diffDaysAt (H : Host) (today : Z) (t : text) (i : nat) : jsnum :=
  diffDaysOf (newDate H (tokenAt t i)) today.

(** The body of the [while] loop for the match at offset [i]. *)
Definition visit (H : Host) (today : Z) (t : text)
           (m : JSMap.t jsnum (list Range)) (i : nat) : JSMap.t jsnum (list Range) :=
  let dateStr := tokenAt t i in
  let date := newDate H dateStr in
  let diffDays := diffDaysOf date today in
  pushDecoration jsnum_eqb diffDays (rangeOf t i) m.

(** The first half of [updateDecorations]: [decorationsMap] after the loop.
    [today] is the time value of local midnight. *)
Definition collect (H : Host) (today : Z) (t : text) : JSMap.t jsnum (list Range) :=
  fold_left (visit H today t) (allMatches wordBoundaryMatchAt t)
            (JSMap.empty jsnum (list Range)).

(** [updateDecorations] *)
Definition updateDecorations (H : Host) (today : Z) (s : State) : State :=
  match activeEditor s with
  | None => s
  | Some editor =>
      render jsnum_eqb jsnum_le0 calculateColor TEXT_COLOR
             (collect H today (document editor)) editor s
  end.

(** [deactivate] *)
Definition deactivate : State -> State := @deactivate jsnum.

(** Normal operation and whole lifetime of this variant's registry. *)
Definition step : State -> State -> Prop :=
  step jsnum_eqb jsnum_le0 calculateColor TEXT_COLOR.
Definition reachable : State -> Prop :=
  reachable jsnum_eqb jsnum_le0 calculateColor TEXT_COLOR PAST_COLOR.
Definition lifetime : State -> Prop :=
  lifetime jsnum_eqb jsnum_le0 calculateColor TEXT_COLOR PAST_COLOR.

End Linear.

(* ------------------------------------------------------------------ *)
(** ** Variant 2: the extension.ts that imports date-fns *)

Module Fib.
Local Open Scope Z_scope.

Definition FIBONACCI_BOUNDARIES : list Z := [1; 2; 3; 5; 8; 13; 21; 34; 55; 89].

(** [FIBONACCI_BOUNDARIES[FIBONACCI_BOUNDARIES.length - 1]] *)
Definition MAX_FIBONACCI_NUMBER : Z := last FIBONACCI_BOUNDARIES 0.

Definition TEXT_COLOR : string := "black".
Definition MAX_HUE : Z := 210.
Definition RED_HUE : string := "hsl(0, 100%, 50%)".
Definition BLUE_HUE : string := "hsl(" ++ showZ MAX_HUE ++ ", 100%, 50%)".

(** [getFibonacciCategory] *)
Definition getFibonacciCategory (diffDays : Z) : Z :=
  if diffDays <=? 0 then 0
  else if MAX_FIBONACCI_NUMBER <? diffDays then MAX_FIBONACCI_NUMBER
  else
    match find (fun boundary => boundary <=? diffDays) (rev FIBONACCI_BOUNDARIES) with
    | Some category => category
    | None => 1
    end.

(** [Array.prototype.indexOf]: -1 when absent. *)
Fixpoint indexOfFrom (x : Z) (l : list Z) (i : Z) : Z :=
  match l with
  | [] => -1
  | y :: l' => if y =? x then i else indexOfFrom x l' (i + 1)
  end.

Definition indexOf (x : Z) (l : list Z) : Z := indexOfFrom x l 0.

(** The hue of an intermediate category. *)
Definition hueOf (fibonacciCategory : Z) : Z :=
  let index := indexOf fibonacciCategory FIBONACCI_BOUNDARIES + 1 in
  let maxIndex := Z.of_nat (length FIBONACCI_BOUNDARIES) in
  let ratio := (inject_Z index / inject_Z maxIndex)%Q in
  Math_round (ratio * inject_Z MAX_HUE)%Q.

(** [calculateColor] *)
Definition calculateColor (fibonacciCategory : Z) : string :=
  if fibonacciCategory <=? 0 then RED_HUE
  else if MAX_FIBONACCI_NUMBER <=? fibonacciCategory then BLUE_HUE
  else "hsl(" ++ showZ (hueOf fibonacciCategory) ++ ", 100%, 50%)".

Definition State := State Z.

Definition moduleLoad : State := moduleLoad Z RED_HUE TEXT_COLOR.

(** [getOrCreateDecorationType] *)
Definition getOrCreateDecorationType : Z -> State -> Handle * State :=
  getOrCreateDecorationType Z.eqb (fun c => c <=? 0) calculateColor TEXT_COLOR.

(** A [Date] truncated to local midnight is represented by its local
    calendar day, counted from Thursday 1970-01-01. *)
Definition LocalDate := Z.

(** [getDay()]: 0 is Sunday. *)
Definition getDay (d : LocalDate) : Z := (d + 4) mod 7.

(** date-fns [isWeekend] *)
Definition isWeekend (d : LocalDate) : bool :=
  (getDay d =? 0) || (getDay d =? 6).

(** date-fns [eachDayOfInterval({start, end})] for [start <= end]: every
    day from [start] to [end], both included. *)
Definition eachDayOfInterval (startDate endDate : LocalDate) : list LocalDate :=
  map (fun k => startDate + Z.of_nat k) (seq 0 (Z.to_nat (endDate - startDate + 1))).

(** [calculateBusinessDays] *)
Definition calculateBusinessDays (startDate endDate : LocalDate) : Z :=
  if startDate =? endDate then 0
  else
    let days := eachDayOfInterval startDate endDate in
    Z.of_nat (length (filter (fun day => negb (isWeekend day)) days)).

(** [isValidDate]: date-fns [isValid(parse(dateStr, 'yyyy-MM-dd', ...))] on
    a string of the date pattern.  The year parser accepts positive years,
    the month parser 1..12, the day parser 1..length of that month. *)
Definition isValidDate (dateStr : text) : bool :=
  (0 <? yearOf dateStr)
  && (1 <=? monthOf dateStr) && (monthOf dateStr <=? 12)
  && (1 <=? dayOf dateStr)
  && (dayOf dateStr <=? daysInMonth (yearOf dateStr) (monthOf dateStr)).

(** [date < today ? -diffDays : diffDays] with the ordered pair of dates. *)
Definition signedDiffDays (today date : LocalDate) : Z :=
  let (startDate, endDate) := if date <? today then (date, today) else (today, date) in
  let diffDays := calculateBusinessDays startDate endDate in
  if date <? today then - diffDays else diffDays.

Definition rangeOf (t : text) (i : nat) : Range :=
  (positionAt t (Z.of_nat i - 1),
   positionAt t (Z.of_nat i + Z.of_nat tokenLength + 1)).

(** [new Date(dateStr)] followed by [setHours(0, 0, 0, 0)], for a validated
    token. *)
Definition dateOf (H : Host) (dateStr : text) : LocalDate :=
  localDay H (utcMidnight dateStr).

(** [fibonacciCategory] as computed for a validated match at offset [i]. *)
Definition categoryAt (H : Host) (today : LocalDate) (t : text) (i : nat) : Z :=
  getFibonacciCategory (signedDiffDays today (dateOf H (tokenAt t i))).

(** The body of the [while] loop for the match at offset [i]. *)
Definition visit (H : Host) (today : LocalDate) (t : text)
           (m : JSMap.t Z (list Range)) (i : nat) : JSMap.t Z (list Range) :=
  let dateStr := tokenAt t i in
  if negb (isValidDate dateStr) then m
  else
    let date := dateOf H dateStr in
    let fibonacciCategory := getFibonacciCategory (signedDiffDays today date) in
    pushDecoration Z.eqb fibonacciCategory (rangeOf t i) m.

(** The first half of [updateDecorations]: [decorationsMap] after the loop.
    [today] is the local calendar day of the update. *)
Definition collect (H : Host) (today : LocalDate) (t : text) : JSMap.t Z (list Range) :=
  fold_left (visit H today t) (allMatches whitespaceMatchAt t)
            (JSMap.empty Z (list Range)).

(** [updateDecorations] *)
Definition updateDecorations (H : Host) (today : LocalDate) (s : State) : State :=
  match activeEditor s with
  | None => s
  | Some editor =>
      render Z.eqb (fun c => c <=? 0) calculateColor TEXT_COLOR
             (collect H today (document editor)) editor s
  end.

(** [deactivate] *)
Definition deactivate : State -> State := @deactivate Z.

(** Normal operation and whole lifetime of this variant's registry. *)
Definition step : State -> State -> Prop :=
  step Z.eqb (fun c => c <=? 0) calculateColor TEXT_COLOR.
Definition reachable : State -> Prop :=
  reachable Z.eqb (fun c => c <=? 0) calculateColor TEXT_COLOR RED_HUE.
Definition lifetime : State -> Prop :=
  lifetime Z.eqb (fun c => c <=? 0) calculateColor TEXT_COLOR RED_HUE.

(** States that update cycles and editor changes alone lead to. *)
Inductive cycles : State -> Prop :=
| cycles_load : cycles moduleLoad
| cycles_editor : forall e s, cycles s -> cycles (setActiveEditor e s)
| cycles_update : forall H today s, cycles s -> cycles (updateDecorations H today s).

End Fib.

(* ------------------------------------------------------------------ *)
(** ** The update scheduler (identical in both variants) *)

Module Scheduler.

Definition TimerId := nat.

Record Sched : Type := {
  (** the closure variable [timeout] of [activate] *)
  timeout : option TimerId;
  (** timers armed in the host, with the time at which they are due *)
  armed : list (TimerId * nat);
  nextId : TimerId;
  (** current time in milliseconds *)
  clock : nat;
  (** the times at which [updateDecorations] has been called *)
  runs : list nat
}.

Definition QUIET_PERIOD : nat := 200.

(** State at the start of [activate]. *)
Definition start : Sched :=
  {| timeout := None; armed := []; nextId := 0; clock := 0; runs := [] |}.

(** A call of [updateDecorations] at time [at_]. *)
Definition updateDecorations (at_ : nat) (s : Sched) : Sched :=
  {| timeout := timeout s; armed := armed s; nextId := nextId s;
     clock := clock s; runs := runs s ++ [at_] |}.

Definition clearTimeout (id : TimerId) (s : Sched) : Sched :=
  {| timeout := timeout s;
     armed := filter (fun p => negb (Nat.eqb (fst p) id)) (armed s);
     nextId := nextId s; clock := clock s; runs := runs s |}.

Definition setTimeout (delay : nat) (s : Sched) : TimerId * Sched :=
  (nextId s,
   {| timeout := timeout s;
      armed := armed s ++ [(nextId s, clock s + delay)];
      nextId := S (nextId s); clock := clock s; runs := runs s |}).

Definition assignTimeout (v : option TimerId) (s : Sched) : Sched :=
  {| timeout := v; armed := armed s; nextId := nextId s;
     clock := clock s; runs := runs s |}.

(** [triggerUpdateDecorations(throttle)] *)
Definition triggerUpdateDecorations (throttle : bool) (s : Sched) : Sched :=
  let s1 := match timeout s with
            | Some id => assignTimeout None (clearTimeout id s)
            | None => s
            end in
  if throttle then
    let (id, s2) := setTimeout QUIET_PERIOD s1 in assignTimeout (Some id) s2
  else updateDecorations (clock s1) s1.

(** The callback of the [refreshHighlights] command; [activeTextEditor]
    tells whether [vscode.window.activeTextEditor] is set. *)
Definition refreshCommand (activeTextEditor : bool) (s : Sched) : Sched :=
  if activeTextEditor then updateDecorations (clock s) s else s.

(** The host fires the armed timers that are due, oldest first; a fired
    timer calls [updateDecorations] and leaves the variable [timeout] alone. *)
Definition fire (s : Sched) (due : list (TimerId * nat)) : Sched :=
  fold_left (fun s' p => updateDecorations (snd p) s') due s.

(** [dt] milliseconds pass. *)
Definition elapse (dt : nat) (s : Sched) : Sched :=
  let t' := clock s + dt in
  let due := filter (fun p => Nat.leb (snd p) t') (armed s) in
  let rest := filter (fun p => negb (Nat.leb (snd p) t')) (armed s) in
  fire {| timeout := timeout s; armed := rest; nextId := nextId s;
          clock := t'; runs := runs s |} due.

Inductive event : Type :=
| Trigger (throttle : bool)
| Refresh (activeTextEditor : bool)
| Elapse (dt : nat).

Definition handle (s : Sched) (e : event) : Sched :=
  match e with
  | Trigger throttle => triggerUpdateDecorations throttle s
  | Refresh a => refreshCommand a s
  | Elapse dt => elapse dt s
  end.

Definition run (es : list event) (s : Sched) : Sched := fold_left handle es s.

(** Every armed timer is the one the variable [timeout] refers to. *)
Definition tracked (s : Sched) : Prop :=
  armed s = [] \/ exists id due, timeout s = Some id /\ armed s = [(id, due)].

End Scheduler.

(** A burst of throttled requests: each one [d] milliseconds after the
    request before it, for the gaps [d] of the list. *)
Fixpoint burst (gaps : list nat) : list Scheduler.event :=
  match gaps with
  | [] => []
  | d :: gaps' => Scheduler.Elapse d :: Scheduler.Trigger true :: burst gaps'
  end.

(* ------------------------------------------------------------------ *)
(** ** The event wiring of [activate] (identical in both variants) *)

Module Activation.

(** The closure of [activate]: the variable [activeEditor], represented by
    the identity of the document the editor shows, and the scheduler. *)
Record Closure : Type := {
  activeEditor : option nat;
  scheduler : Scheduler.Sched
}.

(** [activate]: [activeEditor] is read from the window, and the first update
    is requested without delay when there is an editor. *)
Definition activate (windowEditor : option nat) : Closure :=
  {| activeEditor := windowEditor;
     scheduler := match windowEditor with
                  | Some _ => Scheduler.triggerUpdateDecorations false Scheduler.start
                  | None => Scheduler.start
                  end |}.

(** The listener of [onDidChangeActiveTextEditor]. *)
Definition onDidChangeActiveTextEditor (editor : option nat) (c : Closure) : Closure :=
  {| activeEditor := editor;
     scheduler := match editor with
                  | Some _ => Scheduler.triggerUpdateDecorations false (scheduler c)
                  | None => scheduler c
                  end |}.

(** The listener of [onDidChangeTextDocument]; [document] is [event.document]. *)
Definition onDidChangeTextDocument (document : nat) (c : Closure) : Closure :=
  match activeEditor c with
  | Some shown =>
      if Nat.eqb document shown
      then {| activeEditor := activeEditor c;
              scheduler := Scheduler.triggerUpdateDecorations true (scheduler c) |}
      else c
  | None => c
  end.

Inductive hostEvent : Type :=
| ActiveEditorChanged (editor : option nat)
| TextChanged (document : nat)
| RefreshCommand (windowHasEditor : bool)
| TimePasses (dt : nat).

Definition dispatch (c : Closure) (e : hostEvent) : Closure :=
  match e with
  | ActiveEditorChanged editor => onDidChangeActiveTextEditor editor c
  | TextChanged document => onDidChangeTextDocument document c
  | RefreshCommand w =>
      {| activeEditor := activeEditor c;
         scheduler := Scheduler.refreshCommand w (scheduler c) |}
  | TimePasses dt =>
      {| activeEditor := activeEditor c;
         scheduler := Scheduler.elapse dt (scheduler c) |}
  end.

(** The closure after [activate] and a sequence of host events. *)
Definition session (windowEditor : option nat) (es : list hostEvent) : Closure :=
  fold_left dispatch es (activate windowEditor).

(** Events that ask for an update: editor changes to an editor, text changes
    and refresh commands. *)
Definition requests (es : list hostEvent) : nat :=
  length (filter (fun e => match e with
                           | ActiveEditorChanged (Some _) => true
                           | TextChanged _ => true
                           | RefreshCommand true => true
                           | _ => false
                           end) es).

End Activation.

(* ------------------------------------------------------------------ *)
(** ** Hosts at a fixed offset from UTC *)

(** A host whose local time is UTC plus [offset] milliseconds. *)
Definition fixedOffsetHost (offset : Z) : Host :=
  {| legacyDate := fun _ => NaN;
     localDay := fun ms => ((ms + offset) / msPerDay)%Z |}.

(** The time value of local midnight of the local day [day] on such a host:
    what [today] is after [setHours(0, 0, 0, 0)]. *)
Definition localMidnight (offset day : Z) : Z := (msPerDay * day - offset)%Z.

(** The specification's reading of the business-day distance: the non-weekend
    days after [startDate] up to and including [endDate]. *)
Definition specBusinessDays (startDate endDate : Z) : Z :=
  Z.of_nat (length (filter (fun day => negb (Fib.isWeekend day))
                           (map (fun k => (startDate + 1 + Z.of_nat k)%Z)
                                (seq 0 (Z.to_nat (endDate - startDate)))))).

(** Non-weekend days among [startDate], ..., [startDate + n]. *)
Fixpoint weekdaysThrough (startDate : Z) (n : nat) : Z :=
  ((if Fib.isWeekend (startDate + Z.of_nat n) then 0 else 1)
   + match n with
     | O => 0
     | S n' => weekdaysThrough startDate n'
     end)%Z.

(** Test documents are written as ASCII strings. *)
Definition T : string -> text := text_of_string.

(* ================================================================== *)
(** * Facts *)

Unset Implicit Arguments.

(** ** [JSMap] *)

Section JSMapFacts.
Variables (K V : Type).
Variable eqb : K -> K -> bool.
Hypothesis eqb_eq : forall a b, eqb a b = true <-> a = b.

Lemma eqb_refl : forall a, eqb a a = true.
Proof. intro a. apply eqb_eq. reflexivity. Qed.

Lemma eqb_neq : forall a b, a <> b -> eqb a b = false.
Proof.
  intros a b Hab. destruct (eqb a b) eqn:E; [|reflexivity].
  apply eqb_eq in E. contradiction.
Qed.

Lemma JSMap_get_set_same : forall k (v : V) m,
    JSMap.get eqb k (JSMap.set eqb k v m) = Some v.
Proof.
  intros k v m. induction m as [|[k' v'] m IH]; simpl.
  - rewrite eqb_refl. reflexivity.
  - destruct (eqb k k') eqn:E; simpl; rewrite E; [reflexivity | exact IH].
Qed.

Lemma JSMap_get_set_other : forall k k' (v : V) m,
    k <> k' -> JSMap.get eqb k (JSMap.set eqb k' v m) = JSMap.get eqb k m.
Proof.
  intros k k' v m Hne. induction m as [|[k2 v2] m IH]; simpl.
  - rewrite (eqb_neq _ _ Hne). reflexivity.
  - destruct (eqb k' k2) eqn:E; simpl.
    + apply eqb_eq in E. subst k2. rewrite (eqb_neq _ _ Hne). reflexivity.
    + destruct (eqb k k2); [reflexivity | exact IH].
Qed.

Lemma JSMap_set_absent : forall k (v : V) m,
    JSMap.get eqb k m = None -> JSMap.set eqb k v m = m ++ [(k, v)].
Proof.
  intros k v m. induction m as [|[k' v'] m IH]; simpl; intro H.
  - reflexivity.
  - destruct (eqb k k'); [discriminate|]. rewrite IH by exact H. reflexivity.
Qed.

Lemma JSMap_get_In : forall k (v : V) m,
    JSMap.get eqb k m = Some v -> In (k, v) m.
Proof.
  intros k v m. induction m as [|[k' v'] m IH]; simpl; intro H.
  - discriminate.
  - destruct (eqb k k') eqn:E.
    + apply eqb_eq in E. inversion H. subst. left. reflexivity.
    + right. apply IH. exact H.
Qed.

Lemma JSMap_get_None_keys : forall k (m : JSMap.t K V),
    JSMap.get eqb k m = None <-> ~ In k (JSMap.keys m).
Proof.
  intros k m. induction m as [|[k' v'] m IH]; simpl.
  - split; [intros _ [] | reflexivity].
  - destruct (eqb k k') eqn:E.
    + apply eqb_eq in E. subst. split; [discriminate | intro H; exfalso; apply H; left; reflexivity].
    + rewrite IH. split.
      * intros H [H1 | H1]; [subst; rewrite eqb_refl in E; discriminate | exact (H H1)].
      * intros H H1. apply H. right. exact H1.
Qed.

Lemma JSMap_In_get : forall k (v : V) m,
    NoDup (JSMap.keys m) -> In (k, v) m -> JSMap.get eqb k m = Some v.
Proof.
  intros k v m. induction m as [|[k' v'] m IH]; simpl; intros Hnd Hin.
  - contradiction.
  - inversion Hnd as [|? ? Hnot Hnd']; subst.
    destruct Hin as [Hin | Hin].
    + inversion Hin; subst. rewrite eqb_refl. reflexivity.
    + destruct (eqb k k') eqn:E.
      * apply eqb_eq in E. subst. exfalso. apply Hnot.
        change k' with (fst (k', v)). apply in_map. exact Hin.
      * apply IH; assumption.
Qed.
End JSMapFacts.

Lemma jsnum_eqb_eq : forall a b, jsnum_eqb a b = true <-> a = b.
Proof.
  intros [x|] [y|]; simpl; split; intro H; try discriminate; try reflexivity.
  - apply Z.eqb_eq in H. subst. reflexivity.
  - inversion H. apply Z.eqb_refl.
Qed.

(** ** The scan finds exactly the offsets at which the pattern matches *)

Lemma search_None : forall m t n i,
    search m t i n = None -> forall j, i <= j < i + n -> m t j = false.
Proof.
  intros m t n. induction n as [|n IH]; simpl; intros i H j Hj.
  - lia.
  - destruct (m t i) eqn:E; [discriminate|].
    destruct (Nat.eq_dec j i) as [->|Hne]; [exact E|].
    apply (IH (S i) H). lia.
Qed.

Lemma search_Some : forall m t n i j,
    search m t i n = Some j ->
    i <= j < i + n /\ m t j = true /\ forall k, i <= k < j -> m t k = false.
Proof.
  intros m t n. induction n as [|n IH]; simpl; intros i j H.
  - discriminate.
  - destruct (m t i) eqn:E.
    + inversion H; subst. repeat split; try lia. exact E.
    + destruct (IH (S i) j H) as (Hr & Hm & Hb). repeat split; try lia; [exact Hm|].
      intros k Hk. destruct (Nat.eq_dec k i) as [->|Hne]; [exact E|].
      apply Hb. lia.
Qed.

Lemma filter_seq_nil : forall (p : nat -> bool) n i,
    (forall j, i <= j < i + n -> p j = false) -> filter p (seq i n) = [].
Proof.
  intros p n. induction n as [|n IH]; simpl; intros i H.
  - reflexivity.
  - rewrite (H i) by lia. apply IH. intros j Hj. apply H. lia.
Qed.

Section ScanComplete.
Variable matchAt : text -> nat -> bool.
Hypothesis match_width : forall t i,
    matchAt t i = true -> i + tokenLength <= length t.
Hypothesis match_apart : forall t i j,
    matchAt t i = true -> i < j < i + tokenLength -> matchAt t j = false.

Lemma execLoop_filter : forall t fuel pos,
    S (length t) - pos <= fuel ->
    execLoop matchAt t fuel pos
    = filter (matchAt t) (seq pos (S (length t) - pos)).
Proof.
  intros t fuel. induction fuel as [|fuel IH]; intros pos Hfuel.
  - replace (S (length t) - pos) with 0 by lia. reflexivity.
  - cbn [execLoop]. unfold exec. destruct (search matchAt t pos (S (length t) - pos)) as [j|] eqn:E.
    + apply search_Some in E. destruct E as (Hr & Hm & Hb).
      pose proof (match_width _ _ Hm) as Hw. unfold tokenLength in *.
      replace (S (length t) - pos)
        with ((j - pos) + (1 + (9 + (S (length t) - (j + 10))))) by lia.
      rewrite !seq_app, !filter_app.
      replace (pos + (j - pos)) with j by lia.
      rewrite (filter_seq_nil (matchAt t) (j - pos) pos)
        by (intros k Hk; apply Hb; lia).
      rewrite (filter_seq_nil (matchAt t) 9 (j + 1))
        by (intros k Hk; apply (match_apart t j k Hm); lia).
      cbn [seq filter app]. rewrite Hm.
      replace (j + 1 + 9) with (j + 10) by lia.
      cbn [app]. f_equal. apply IH. lia.
    + symmetry. apply filter_seq_nil. intros j Hj.
      apply (search_None _ _ _ _ E). exact Hj.
Qed.

Lemma allMatches_filter : forall t,
    allMatches matchAt t = filter (matchAt t) (seq 0 (S (length t))).
Proof.
  intro t. unfold allMatches. rewrite execLoop_filter by lia.
  rewrite Nat.sub_0_r. reflexivity.
Qed.

Lemma allMatches_In : forall t i,
    In i (allMatches matchAt t) <-> matchAt t i = true.
Proof.
  intros t i. rewrite allMatches_filter, filter_In, in_seq. split.
  - intros [_ H]. exact H.
  - intro H. split; [|exact H]. pose proof (match_width _ _ H). unfold tokenLength in *. lia.
Qed.
End ScanComplete.

(** ** Both patterns have width ten and cannot overlap *)

Lemma testAt_length : forall p t k, testAt p t k = true -> k < length t.
Proof.
  intros p t k H. unfold testAt in H.
  destruct (nth_error t k) eqn:E; [|discriminate].
  apply nth_error_Some. rewrite E. discriminate.
Qed.

Lemma digit_not_hyphen : forall t k,
    testAt is_digit t k = true -> testAt is_hyphen t k = true -> False.
Proof.
  intros t k. unfold testAt. destruct (nth_error t k) as [c|]; [|discriminate].
  unfold is_digit, is_hyphen. intros H1 H2.
  apply andb_true_iff in H1. destruct H1 as [H1 _].
  apply N.leb_le in H1. apply N.eqb_eq in H2. lia.
Qed.

Lemma digit_is_word : forall t k,
    testAt is_digit t k = true -> testAt is_word t k = true.
Proof.
  intros t k. unfold testAt. destruct (nth_error t k) as [c|]; [|discriminate].
  unfold is_word. intro H. rewrite H. reflexivity.
Qed.

Lemma digit_not_space : forall t k,
    testAt is_digit t k = true -> testAt is_space t k = false.
Proof.
  intros t k. unfold testAt. destruct (nth_error t k) as [c|]; [|discriminate].
  unfold is_digit, is_space. intro H.
  apply andb_true_iff in H. destruct H as [H1 H2].
  apply N.leb_le in H1. apply N.leb_le in H2.
  repeat match goal with
         | |- context [(?a <=? ?b)%N] => destruct (N.leb_spec a b)
         | |- context [(?a =? ?b)%N] => destruct (N.eqb_spec a b)
         end; simpl; try reflexivity; lia.
Qed.

(** The ten facts packed in [shapeAt]. *)
Lemma shapeAt_inv : forall t i,
    shapeAt t i = true ->
    testAt is_digit t i = true /\ testAt is_digit t (i + 1) = true
    /\ testAt is_digit t (i + 2) = true /\ testAt is_digit t (i + 3) = true
    /\ testAt is_hyphen t (i + 4) = true
    /\ testAt is_digit t (i + 5) = true /\ testAt is_digit t (i + 6) = true
    /\ testAt is_hyphen t (i + 7) = true
    /\ testAt is_digit t (i + 8) = true /\ testAt is_digit t (i + 9) = true.
Proof.
  intros t i H. unfold shapeAt in H.
  repeat (apply andb_true_iff in H; destruct H as [H ?]).
  repeat split; assumption.
Qed.

Lemma shapeAt_width : forall t i, shapeAt t i = true -> i + tokenLength <= length t.
Proof.
  intros t i H. apply shapeAt_inv in H.
  destruct H as (_ & _ & _ & _ & _ & _ & _ & _ & _ & H9).
  apply testAt_length in H9. unfold tokenLength. lia.
Qed.

(** A second token can start inside a first one only at its last two
    characters, and then the character after the first token is a digit. *)
Lemma shapeAt_overlap : forall t i j,
    shapeAt t i = true -> shapeAt t j = true -> i < j < i + tokenLength ->
    testAt is_digit t (i + 10) = true.
Proof.
  intros t i j Hi Hj Hr. unfold tokenLength in Hr.
  apply shapeAt_inv in Hi. apply shapeAt_inv in Hj.
  destruct Hi as (_ & _ & _ & _ & I4 & _ & _ & I7 & _ & _).
  destruct Hj as (J0 & J1 & J2 & J3 & _ & _ & _ & _ & _ & _).
  assert (Hd : j = i + 1 \/ j = i + 2 \/ j = i + 3 \/ j = i + 4 \/ j = i + 5
               \/ j = i + 6 \/ j = i + 7 \/ j = i + 8 \/ j = i + 9) by lia.
  repeat (destruct Hd as [Hd | Hd]); subst j;
    rewrite <- ?Nat.add_assoc in *; cbn [Nat.add] in *;
    first [ assumption
          | exfalso;
            first [ exact (digit_not_hyphen _ _ J0 I4) | exact (digit_not_hyphen _ _ J1 I4)
                  | exact (digit_not_hyphen _ _ J2 I4) | exact (digit_not_hyphen _ _ J3 I4)
                  | exact (digit_not_hyphen _ _ J0 I7) | exact (digit_not_hyphen _ _ J1 I7)
                  | exact (digit_not_hyphen _ _ J2 I7) | exact (digit_not_hyphen _ _ J3 I7) ] ].
Qed.

Lemma wordBoundaryMatchAt_width : forall t i,
    wordBoundaryMatchAt t i = true -> i + tokenLength <= length t.
Proof.
  intros t i H. unfold wordBoundaryMatchAt in H.
  apply andb_true_iff in H. destruct H as [H _].
  apply andb_true_iff in H. destruct H as [_ H].
  apply shapeAt_width. exact H.
Qed.

Lemma wordBoundaryMatchAt_apart : forall t i j,
    wordBoundaryMatchAt t i = true -> i < j < i + tokenLength ->
    wordBoundaryMatchAt t j = false.
Proof.
  intros t i j Hi Hr. destruct (wordBoundaryMatchAt t j) eqn:Hj; [|reflexivity].
  exfalso. unfold wordBoundaryMatchAt in Hi, Hj.
  apply andb_true_iff in Hi. destruct Hi as [Hi Hend].
  apply andb_true_iff in Hi. destruct Hi as [_ Hi].
  apply andb_true_iff in Hj. destruct Hj as [Hj _].
  apply andb_true_iff in Hj. destruct Hj as [_ Hj].
  pose proof (shapeAt_overlap _ _ _ Hi Hj Hr) as Hd.
  apply shapeAt_inv in Hi. destruct Hi as (_ & _ & _ & _ & _ & _ & _ & _ & _ & I9).
  apply digit_is_word in Hd. apply digit_is_word in I9.
  unfold wordBoundary, tokenLength in Hend.
  replace (i + 10) with (S (i + 9)) in Hend, Hd by lia.
  rewrite I9, Hd in Hend. discriminate.
Qed.

Lemma whitespaceMatchAt_width : forall t i,
    whitespaceMatchAt t i = true -> i + tokenLength <= length t.
Proof.
  intros t i H. unfold whitespaceMatchAt in H.
  apply andb_true_iff in H. destruct H as [H _].
  apply andb_true_iff in H. destruct H as [_ H].
  apply shapeAt_width. exact H.
Qed.

Lemma whitespaceMatchAt_apart : forall t i j,
    whitespaceMatchAt t i = true -> i < j < i + tokenLength ->
    whitespaceMatchAt t j = false.
Proof.
  intros t i j Hi Hr. destruct (whitespaceMatchAt t j) eqn:Hj; [|reflexivity].
  exfalso. unfold whitespaceMatchAt in Hi, Hj.
  apply andb_true_iff in Hi. destruct Hi as [Hi Hend].
  apply andb_true_iff in Hi. destruct Hi as [_ Hi].
  apply andb_true_iff in Hj. destruct Hj as [Hj _].
  apply andb_true_iff in Hj. destruct Hj as [_ Hj].
  pose proof (shapeAt_overlap _ _ _ Hi Hj Hr) as Hd.
  unfold aheadSpaceOrEnd, tokenLength in Hend.
  rewrite (digit_not_space _ _ Hd) in Hend. simpl in Hend.
  apply Nat.eqb_eq in Hend. apply testAt_length in Hd. lia.
Qed.

(** Offsets come out in strictly increasing order. *)
Lemma filter_seq_sorted : forall (p : nat -> bool) n i,
    StronglySorted lt (filter p (seq i n)).
Proof.
  intros p n. induction n as [|n IH]; intro i; simpl.
  - constructor.
  - destruct (p i).
    + constructor; [apply IH|].
      apply Forall_forall. intros x Hx. apply filter_In in Hx.
      destruct Hx as [Hx _]. apply in_seq in Hx. lia.
    + apply IH.
Qed.

(** ** What the grouping loop leaves in [decorationsMap] *)

Lemma fold_left_pointwise : forall (A B : Type) (f g : A -> B -> A) l a,
    (forall x y, f x y = g x y) -> fold_left f l a = fold_left g l a.
Proof.
  intros A B f g l. induction l as [|b l IH]; intros a H; simpl.
  - reflexivity.
  - rewrite H. apply IH. exact H.
Qed.

Section Grouping.
Variables (K A : Type).
Variable eqb : K -> K -> bool.
Hypothesis eqb_eq : forall a b, eqb a b = true <-> a = b.
(** an item is kept when [keep] holds, and filed under [key] with range [rng] *)
Variables (keep : A -> bool) (key : A -> K) (rng : A -> Range).

Let file (m : JSMap.t K (list Range)) (a : A) :=
  if keep a then pushDecoration eqb (key a) (rng a) m else m.

Lemma keys_set : forall k (v : list Range) m,
    JSMap.keys (JSMap.set eqb k v m)
    = if JSMap.has eqb k m then JSMap.keys m else JSMap.keys m ++ [k].
Proof.
  intros k v m. unfold JSMap.has. induction m as [|[k' v'] m IH]; simpl.
  - reflexivity.
  - destruct (eqb k k') eqn:E; simpl.
    + reflexivity.
    + rewrite IH. destruct (JSMap.get eqb k m); reflexivity.
Qed.

Lemma NoDup_keys_set : forall k (v : list Range) m,
    NoDup (JSMap.keys m) -> NoDup (JSMap.keys (JSMap.set eqb k v m)).
Proof.
  intros k v m Hnd. rewrite keys_set. unfold JSMap.has.
  destruct (JSMap.get eqb k m) eqn:E; [exact Hnd|].
  apply (JSMap_get_None_keys _ _ eqb eqb_eq) in E.
  apply NoDup_rev in Hnd. rewrite <- (rev_involutive (JSMap.keys m ++ [k])).
  apply NoDup_rev. rewrite rev_app_distr. simpl. constructor; [|exact Hnd].
  rewrite <- in_rev. exact E.
Qed.

Lemma NoDup_keys_fold : forall l m,
    NoDup (JSMap.keys m) -> NoDup (JSMap.keys (fold_left file l m)).
Proof.
  induction l as [|a l IH]; intros m Hnd; simpl.
  - exact Hnd.
  - apply IH. unfold file, pushDecoration.
    destruct (keep a); [|exact Hnd].
    destruct (JSMap.get eqb (key a) m); apply NoDup_keys_set; exact Hnd.
Qed.

Lemma get_push : forall k k' r m,
    JSMap.get eqb k (pushDecoration eqb k' r m)
    = if eqb k k'
      then Some (match JSMap.get eqb k m with Some rs => rs ++ [r] | None => [r] end)
      else JSMap.get eqb k m.
Proof.
  intros k k' r m. unfold pushDecoration. destruct (eqb k k') eqn:E.
  - apply eqb_eq in E. subst k'.
    destruct (JSMap.get eqb k m); apply (JSMap_get_set_same _ _ eqb eqb_eq).
  - assert (Hne : k <> k') by (intro; subst; rewrite (eqb_refl _ eqb eqb_eq) in E; discriminate).
    destruct (JSMap.get eqb k' m); apply (JSMap_get_set_other _ _ eqb eqb_eq); exact Hne.
Qed.

(** The entry of a key after the loop: what it held before, followed by
    the ranges of the kept items with that key, in scan order. *)
Lemma get_fold_file : forall l m k,
    JSMap.get eqb k (fold_left file l m)
    = match JSMap.get eqb k m,
            map rng (filter (fun a => keep a && eqb k (key a)) l) with
      | None, [] => None
      | None, new => Some new
      | Some rs, new => Some (rs ++ new)
      end.
Proof.
  induction l as [|a l IH]; intros m k; simpl.
  - destruct (JSMap.get eqb k m); [rewrite app_nil_r|]; reflexivity.
  - rewrite IH. unfold file. destruct (keep a); simpl.
    + rewrite get_push. destruct (eqb k (key a)); simpl.
      * destruct (JSMap.get eqb k m); [rewrite <- app_assoc|]; reflexivity.
      * reflexivity.
    + reflexivity.
Qed.

Lemma get_fold_file_empty : forall l k,
    JSMap.get eqb k (fold_left file l (JSMap.empty K (list Range)))
    = match map rng (filter (fun a => keep a && eqb k (key a)) l) with
      | [] => None
      | new => Some new
      end.
Proof. intros l k. rewrite get_fold_file. reflexivity. Qed.
End Grouping.

(** ** The two extraction loops *)

Lemma Linear_allMatches : forall t,
    allMatches wordBoundaryMatchAt t
    = filter (wordBoundaryMatchAt t) (seq 0 (S (length t))).
Proof.
  apply allMatches_filter.
  - exact wordBoundaryMatchAt_width.
  - exact wordBoundaryMatchAt_apart.
Qed.

Lemma Fib_allMatches : forall t,
    allMatches whitespaceMatchAt t
    = filter (whitespaceMatchAt t) (seq 0 (S (length t))).
Proof.
  apply allMatches_filter.
  - exact whitespaceMatchAt_width.
  - exact whitespaceMatchAt_apart.
Qed.

Lemma Linear_collect_get : forall H today t k,
    JSMap.get jsnum_eqb k (Linear.collect H today t)
    = match map (Linear.rangeOf t)
                (filter (fun i => jsnum_eqb k (Linear.diffDaysAt H today t i))
                        (allMatches wordBoundaryMatchAt t)) with
      | [] => None
      | new => Some new
      end.
Proof.
  intros H today t k. unfold Linear.collect.
  rewrite (fold_left_pointwise _ _ (Linear.visit H today t)
             (fun m i => if (fun _ : nat => true) i
                         then pushDecoration jsnum_eqb (Linear.diffDaysAt H today t i)
                                             (Linear.rangeOf t i) m
                         else m))
    by reflexivity.
  etransitivity;
    [exact (get_fold_file jsnum nat jsnum_eqb jsnum_eqb_eq (fun _ => true)
              (Linear.diffDaysAt H today t) (Linear.rangeOf t) _ _ k)|].
  reflexivity.
Qed.

Lemma Fib_collect_get : forall H today t c,
    JSMap.get Z.eqb c (Fib.collect H today t)
    = match map (Fib.rangeOf t)
                (filter (fun i => Fib.isValidDate (tokenAt t i)
                                  && Z.eqb c (Fib.categoryAt H today t i))
                        (allMatches whitespaceMatchAt t)) with
      | [] => None
      | new => Some new
      end.
Proof.
  intros H today t c. unfold Fib.collect.
  rewrite (fold_left_pointwise _ _ (Fib.visit H today t)
             (fun m i => if Fib.isValidDate (tokenAt t i)
                         then pushDecoration Z.eqb (Fib.categoryAt H today t i)
                                             (Fib.rangeOf t i) m
                         else m))
    by (intros m i; unfold Fib.visit; destruct (Fib.isValidDate (tokenAt t i)); reflexivity).
  etransitivity;
    [exact (get_fold_file Z nat Z.eqb Z.eqb_eq (fun i => Fib.isValidDate (tokenAt t i))
              (Fib.categoryAt H today t) (Fib.rangeOf t) _ _ c)|].
  reflexivity.
Qed.

Lemma Fib_collect_NoDup : forall H today t,
    NoDup (JSMap.keys (Fib.collect H today t)).
Proof.
  intros H today t. unfold Fib.collect.
  rewrite (fold_left_pointwise _ _ (Fib.visit H today t)
             (fun m i => if Fib.isValidDate (tokenAt t i)
                         then pushDecoration Z.eqb (Fib.categoryAt H today t i)
                                             (Fib.rangeOf t i) m
                         else m))
    by (intros m i; unfold Fib.visit; destruct (Fib.isValidDate (tokenAt t i)); reflexivity).
  apply (NoDup_keys_fold Z nat Z.eqb Z.eqb_eq (fun i => Fib.isValidDate (tokenAt t i))
           (Fib.categoryAt H today t) (Fib.rangeOf t)).
  constructor.
Qed.

Lemma Linear_rangeOf_exact : forall t i,
    wordBoundaryMatchAt t i = true -> Linear.rangeOf t i = (i, i + 10).
Proof.
  intros t i H. apply wordBoundaryMatchAt_width in H.
  unfold Linear.rangeOf, positionAt, tokenLength in *. f_equal; lia.
Qed.

Lemma Fib_rangeOf_widened : forall t i,
    whitespaceMatchAt t i = true ->
    Fib.rangeOf t i = (i - 1, Nat.min (length t) (i + 11)).
Proof.
  intros t i H. apply whitespaceMatchAt_width in H.
  unfold Fib.rangeOf, positionAt, tokenLength in *. f_equal; lia.
Qed.

Lemma Fib_rangeOf_inj : forall t i j,
    whitespaceMatchAt t i = true -> whitespaceMatchAt t j = true ->
    Fib.rangeOf t i = Fib.rangeOf t j -> i = j.
Proof.
  intros t i j Hi Hj Heq.
  rewrite (Fib_rangeOf_widened _ _ Hi), (Fib_rangeOf_widened _ _ Hj) in Heq.
  inversion Heq as [[H1 H2]].
  destruct (Nat.eq_dec i j) as [E|E]; [exact E|exfalso].
  destruct (Nat.lt_ge_cases i j) as [Hlt|Hge].
  - destruct (Nat.lt_ge_cases j (i + tokenLength)) as [Hc|Hc].
    + pose proof (whitespaceMatchAt_apart t i j Hi (conj Hlt Hc)). congruence.
    + unfold tokenLength in Hc. lia.
  - destruct (Nat.lt_ge_cases i (j + tokenLength)) as [Hc|Hc].
    + assert (Hlt : j < i) by lia.
      pose proof (whitespaceMatchAt_apart t j i Hj (conj Hlt Hc)). congruence.
    + unfold tokenLength in Hc. lia.
Qed.

Lemma isValidDate_real : forall tok,
    Fib.isValidDate tok = true ->
    realCalendarDate (yearOf tok) (monthOf tok) (dayOf tok) = true.
Proof.
  intros tok H. unfold Fib.isValidDate in H. unfold realCalendarDate.
  repeat (apply andb_true_iff in H; destruct H as [H ?]).
  repeat (apply andb_true_iff; split); assumption.
Qed.

(** C1 (as amended).  In the variant that validates (date-fns), a token of
    the date pattern whose fields are not a real calendar date adds no range
    to any group, and every validated token -- before or after such a token --
    does get its range, so the scan goes on.  The other variant has no
    validation: there every token of the pattern adds a range, filed under
    whatever [diffDays] the host's [Date] yields for it. *)
Theorem invalid_dates_skipped_only_by_validating_variant :
  forall (H : Host) (t : text),
    (forall today i,
        whitespaceMatchAt t i = true ->
        realCalendarDate (yearOf (tokenAt t i)) (monthOf (tokenAt t i))
                         (dayOf (tokenAt t i)) = false ->
        forall c rs, In (c, rs) (Fib.collect H today t) ->
                     ~ In (Fib.rangeOf t i) rs)
    /\ (forall today j,
           whitespaceMatchAt t j = true ->
           Fib.isValidDate (tokenAt t j) = true ->
           exists rs,
             JSMap.get Z.eqb (Fib.categoryAt H today t j) (Fib.collect H today t)
             = Some rs
             /\ In (Fib.rangeOf t j) rs)
    /\ (forall today i,
           wordBoundaryMatchAt t i = true ->
           exists rs,
             JSMap.get jsnum_eqb (Linear.diffDaysAt H today t i)
                       (Linear.collect H today t) = Some rs
             /\ In (Linear.rangeOf t i) rs).
Proof.
  intros H t. split; [|split].
  - intros today i Hi Hbad c rs Hin Hr.
    apply (JSMap_In_get _ _ Z.eqb Z.eqb_eq) in Hin; [|apply Fib_collect_NoDup].
    rewrite Fib_collect_get in Hin.
    destruct (map (Fib.rangeOf t) _) as [|r l] eqn:E in Hin; [discriminate|].
    inversion Hin; subst rs. rewrite <- E in Hr.
    apply in_map_iff in Hr. destruct Hr as (j & Hj & Hjin).
    apply filter_In in Hjin. destruct Hjin as [Hjm Hjv].
    apply andb_true_iff in Hjv. destruct Hjv as [Hjv _].
    apply (allMatches_In _ whitespaceMatchAt_width whitespaceMatchAt_apart) in Hjm.
    apply (Fib_rangeOf_inj _ _ _ Hjm Hi) in Hj. subst j.
    apply isValidDate_real in Hjv. congruence.
  - intros today j Hj Hv. rewrite Fib_collect_get.
    assert (Hin : In (Fib.rangeOf t j)
                     (map (Fib.rangeOf t)
                          (filter (fun i => Fib.isValidDate (tokenAt t i)
                                            && Z.eqb (Fib.categoryAt H today t j)
                                                     (Fib.categoryAt H today t i))
                                  (allMatches whitespaceMatchAt t)))).
    { apply in_map. apply filter_In. split.
      - apply (allMatches_In _ whitespaceMatchAt_width whitespaceMatchAt_apart). exact Hj.
      - rewrite Hv, Z.eqb_refl. reflexivity. }
    destruct (map (Fib.rangeOf t) _) as [|r l]; [contradiction|].
    eexists. split; [reflexivity | exact Hin].
  - intros today i Hi. rewrite Linear_collect_get.
    assert (Hin : In (Linear.rangeOf t i)
                     (map (Linear.rangeOf t)
                          (filter (fun k => jsnum_eqb (Linear.diffDaysAt H today t i)
                                                      (Linear.diffDaysAt H today t k))
                                  (allMatches wordBoundaryMatchAt t)))).
    { apply in_map. apply filter_In. split.
      - apply (allMatches_In _ wordBoundaryMatchAt_width wordBoundaryMatchAt_apart). exact Hi.
      - apply jsnum_eqb_eq. reflexivity. }
    destruct (map (Linear.rangeOf t) _) as [|r l]; [contradiction|].
    eexists. split; [reflexivity | exact Hin].
Qed.

(** C1 (counterexample to the claim as stated).  The variant without
    validation styles the token [2024-13-01]: it gets a range, a group of its
    own and a decoration type of its own. *)
Lemma invalid_date_is_styled_without_validation :
  let t := T "2024-13-01" in
  let today := (msPerDay * daysFromCivil 2024 6 15)%Z in
  let editor := {| document := t; rendered := [] |} in
  let s := Linear.updateDecorations strictUTC today
             (setActiveEditor (Some editor) Linear.moduleLoad) in
  wordBoundaryMatchAt t 0 = true
  /\ realCalendarDate (yearOf (tokenAt t 0)) (monthOf (tokenAt t 0))
                      (dayOf (tokenAt t 0)) = false
  /\ Linear.collect strictUTC today t = [(NaN, [(0, 10)])]
  /\ option_map rendered (activeEditor s) = Some [(0, []); (1, [(0, 10)])]
  /\ map snd (created s)
     = [ {| backgroundColor := "rgb(255, 0, 0)"; color := "white" |};
         {| backgroundColor := "rgb(NaN, 0, NaN)"; color := "white" |} ].
Proof. vm_compute. repeat split; reflexivity. Qed.

(** C3 (as amended).  Both scans return every offset at which their pattern
    matches, in strictly increasing order.  The word-boundary variant styles
    exactly the ten characters of the token.  The whitespace variant styles
    from one character before the token (from the token itself at the start
    of the document) to one character after it (to the end of the document
    when the token ends it).  Inside every group the ranges are in scan
    order. *)
Theorem extraction_offsets_and_order :
  forall (H : Host) (t : text),
    allMatches wordBoundaryMatchAt t
    = filter (wordBoundaryMatchAt t) (seq 0 (S (length t)))
    /\ allMatches whitespaceMatchAt t
       = filter (whitespaceMatchAt t) (seq 0 (S (length t)))
    /\ StronglySorted lt (allMatches wordBoundaryMatchAt t)
    /\ StronglySorted lt (allMatches whitespaceMatchAt t)
    /\ (forall i, wordBoundaryMatchAt t i = true ->
                  Linear.rangeOf t i = (i, i + 10))
    /\ (forall i, whitespaceMatchAt t i = true ->
                  Fib.rangeOf t i = (i - 1, Nat.min (length t) (i + 11)))
    /\ (forall today k,
           JSMap.get jsnum_eqb k (Linear.collect H today t)
           = match map (Linear.rangeOf t)
                       (filter (fun i => jsnum_eqb k (Linear.diffDaysAt H today t i))
                               (allMatches wordBoundaryMatchAt t)) with
             | [] => None
             | new => Some new
             end)
    /\ (forall today c,
           JSMap.get Z.eqb c (Fib.collect H today t)
           = match map (Fib.rangeOf t)
                       (filter (fun i => Fib.isValidDate (tokenAt t i)
                                         && Z.eqb c (Fib.categoryAt H today t i))
                               (allMatches whitespaceMatchAt t)) with
             | [] => None
             | new => Some new
             end).
Proof.
  intros H t. repeat split.
  - apply Linear_allMatches.
  - apply Fib_allMatches.
  - rewrite Linear_allMatches. apply filter_seq_sorted.
  - rewrite Fib_allMatches. apply filter_seq_sorted.
  - apply Linear_rangeOf_exact.
  - apply Fib_rangeOf_widened.
  - intros today k. apply Linear_collect_get.
  - intros today c. apply Fib_collect_get.
Qed.

(** C3 (counterexample to the claim as stated).  In the whitespace variant
    the token at offsets 1 to 10 of [" 2024-06-15 "] is styled from offset 0
    to offset 12: the range covers the space before and the space after. *)
Lemma whitespace_variant_styles_neighbours :
  let t := T " 2024-06-15 " in
  let today := daysFromCivil 2024 6 15 in
  allMatches whitespaceMatchAt t = [1]
  /\ Fib.isValidDate (tokenAt t 1) = true
  /\ Fib.collect strictUTC today t = [(0%Z, [(0, 12)])]
  /\ Fib.rangeOf t 1 <> (1, 11).
Proof. vm_compute. repeat split; try reflexivity. discriminate. Qed.

(** ** Business-day distance *)

Lemma weekday_count_through : forall (f : Z -> bool) (a : Z) (n : nat),
    length (filter f (map (fun k => (a + Z.of_nat k)%Z) (seq 0 (S n))))
    = (if f (a + Z.of_nat n)%Z then 1 else 0)
      + match n with
        | O => 0
        | S n' => length (filter f (map (fun k => (a + Z.of_nat k)%Z) (seq 0 (S n'))))
        end.
Proof.
  intros f a n. destruct n as [|n].
  - simpl. destruct (f (a + 0)%Z); reflexivity.
  - rewrite (seq_S (S n) 0), map_app, filter_app, length_app.
    cbn [map filter Nat.add].
    destruct (f (a + Z.of_nat (S n))%Z); cbn [length]; lia.
Qed.

Lemma eachDay_weekdaysThrough : forall (a : Z) (n : nat),
    Z.of_nat (length (filter (fun day => negb (Fib.isWeekend day))
                             (map (fun k => (a + Z.of_nat k)%Z) (seq 0 (S n)))))
    = weekdaysThrough a n.
Proof.
  intros a n. induction n as [|n IH].
  - rewrite weekday_count_through. cbn [weekdaysThrough].
    destruct (Fib.isWeekend (a + Z.of_nat 0)%Z); reflexivity.
  - rewrite weekday_count_through. cbn [weekdaysThrough]. rewrite <- IH.
    destruct (Fib.isWeekend (a + Z.of_nat (S n))%Z); cbn [negb]; cbv beta iota;
      unfold Fib.LocalDate;
      match goal with |- context [length ?l] => generalize (length l) end;
      intro len; lia.
Qed.

Lemma calculateBusinessDays_through : forall startDate endDate : Z,
    (startDate < endDate)%Z ->
    Fib.calculateBusinessDays startDate endDate
    = weekdaysThrough startDate (Z.to_nat (endDate - startDate)).
Proof.
  intros a b Hlt. unfold Fib.calculateBusinessDays, Fib.eachDayOfInterval.
  destruct (Z.eqb_spec a b) as [E|_]; [lia|].
  replace (Z.to_nat (b - a + 1)) with (S (Z.to_nat (b - a))) by lia.
  apply eachDay_weekdaysThrough.
Qed.

Lemma weekdaysThrough_nonneg : forall a n, (0 <= weekdaysThrough a n)%Z.
Proof.
  intros a n. induction n as [|n IH]; cbn [weekdaysThrough].
  - destruct (Fib.isWeekend _); lia.
  - destruct (Fib.isWeekend _); lia.
Qed.

(** The count of the code is the count of the specification plus the start
    day whenever the start day is not a weekend day. *)
Lemma calculateBusinessDays_vs_spec : forall startDate endDate : Z,
    (startDate < endDate)%Z ->
    Fib.calculateBusinessDays startDate endDate
    = ((if Fib.isWeekend startDate then 0 else 1)
       + specBusinessDays startDate endDate)%Z.
Proof.
  intros a b Hlt. unfold Fib.calculateBusinessDays, Fib.eachDayOfInterval, specBusinessDays.
  destruct (Z.eqb_spec a b) as [E|_]; [lia|].
  replace (Z.to_nat (b - a + 1)) with (S (Z.to_nat (b - a))) by lia.
  generalize (Z.to_nat (b - a)). intro n.
  cbn [seq map filter]. rewrite <- seq_shift, map_map.
  replace (a + Z.of_nat 0)%Z with a by lia.
  rewrite (map_ext (fun k => (a + Z.of_nat (S k))%Z) (fun k => (a + 1 + Z.of_nat k)%Z))
    by (intro k; lia).
  destruct (Fib.isWeekend a); cbn [negb length]; unfold Fib.LocalDate;
    match goal with |- context [length ?l] => generalize (length l) end;
    intro len; cbv iota; lia.
Qed.

(** C2 (as amended).  The distance is 0 for equal dates.  For different dates
    its magnitude is the number of non-weekend days from the earlier to the
    later date with both ends counted, which is the number the claim describes
    plus one when the earlier date is not a weekend day.  It is never
    positive when the date precedes today and never negative when it
    follows. *)
Theorem business_day_distance_counts_both_ends :
  forall today date : Z,
    (date = today -> Fib.signedDiffDays today date = 0%Z)
    /\ ((today < date)%Z ->
        Fib.signedDiffDays today date
        = weekdaysThrough today (Z.to_nat (date - today))
        /\ Fib.signedDiffDays today date
           = ((if Fib.isWeekend today then 0 else 1) + specBusinessDays today date)%Z
        /\ (0 <= Fib.signedDiffDays today date)%Z)
    /\ ((date < today)%Z ->
        Fib.signedDiffDays today date
        = (- weekdaysThrough date (Z.to_nat (today - date)))%Z
        /\ Fib.signedDiffDays today date
           = (- ((if Fib.isWeekend date then 0 else 1) + specBusinessDays date today))%Z
        /\ (Fib.signedDiffDays today date <= 0)%Z).
Proof.
  intros today date. unfold Fib.signedDiffDays. split; [|split].
  - intros ->. rewrite Z.ltb_irrefl. unfold Fib.calculateBusinessDays.
    rewrite Z.eqb_refl. reflexivity.
  - intro Hlt. destruct (Z.ltb_spec date today) as [Hc|_]; [lia|].
    split; [|split].
    + apply calculateBusinessDays_through. exact Hlt.
    + apply calculateBusinessDays_vs_spec. exact Hlt.
    + rewrite calculateBusinessDays_through by exact Hlt. apply weekdaysThrough_nonneg.
  - intro Hlt. destruct (Z.ltb_spec date today) as [_|Hc]; [|lia].
    split; [|split].
    + rewrite calculateBusinessDays_through by exact Hlt. reflexivity.
    + rewrite calculateBusinessDays_vs_spec by exact Hlt. reflexivity.
    + rewrite calculateBusinessDays_through by exact Hlt.
      pose proof (weekdaysThrough_nonneg date (Z.to_nat (today - date))). lia.
Qed.

(** C2 (counterexample to the claim as stated).  From Friday 2024-06-14 to
    Monday 2024-06-17 the code counts Friday and Monday, so the distance is 2
    where the claim says 1; and Saturday 2024-06-15 seen from Sunday
    2024-06-16 precedes today but has distance 0, not a negative one. *)
Lemma friday_to_monday_is_two :
  let friday := daysFromCivil 2024 6 14 in
  let saturday := daysFromCivil 2024 6 15 in
  let sunday := daysFromCivil 2024 6 16 in
  let monday := daysFromCivil 2024 6 17 in
  Fib.getDay friday = 5%Z /\ Fib.getDay monday = 1%Z
  /\ Fib.signedDiffDays friday monday = 2%Z
  /\ specBusinessDays friday monday = 1%Z
  /\ Fib.collect strictUTC friday (T "2024-06-17") = [(2%Z, [(0, 10)])]
  /\ (saturday < sunday)%Z /\ Fib.signedDiffDays sunday saturday = 0%Z.
Proof. vm_compute. repeat split; reflexivity. Qed.

(** ** Fibonacci buckets *)

(** C5.  With the thresholds 1, 2, 3, 5, 8, 13, 21, 34, 55, 89: a distance
    of 0 or less has category 0; a distance above 89 has category 89; every
    other distance has as category the first threshold, scanning from the
    largest down, that does not exceed it, and that threshold is the largest
    one not exceeding the distance. *)
Theorem fibonacci_category_is_largest_threshold_below :
  forall d : Z,
    Fib.FIBONACCI_BOUNDARIES = [1; 2; 3; 5; 8; 13; 21; 34; 55; 89]%Z
    /\ ((d <= 0)%Z -> Fib.getFibonacciCategory d = 0%Z)
    /\ ((89 < d)%Z -> Fib.getFibonacciCategory d = 89%Z)
    /\ ((0 < d <= 89)%Z ->
        find (fun boundary => (boundary <=? d)%Z) (rev Fib.FIBONACCI_BOUNDARIES)
        = Some (Fib.getFibonacciCategory d)
        /\ In (Fib.getFibonacciCategory d) Fib.FIBONACCI_BOUNDARIES
        /\ (Fib.getFibonacciCategory d <= d)%Z
        /\ forall b, In b Fib.FIBONACCI_BOUNDARIES -> (b <= d)%Z ->
                     (b <= Fib.getFibonacciCategory d)%Z).
Proof.
  intro d. split; [reflexivity|]. split; [|split].
  - intro H. unfold Fib.getFibonacciCategory.
    destruct (Z.leb_spec d 0); [reflexivity | lia].
  - intro H. unfold Fib.getFibonacciCategory.
    change Fib.MAX_FIBONACCI_NUMBER with 89%Z.
    destruct (Z.leb_spec d 0); [lia|].
    destruct (Z.ltb_spec 89 d); [reflexivity | lia].
  - intro H. unfold Fib.getFibonacciCategory.
    change Fib.MAX_FIBONACCI_NUMBER with 89%Z.
    destruct (Z.leb_spec d 0); [lia|].
    destruct (Z.ltb_spec 89 d); [lia|].
    change (rev Fib.FIBONACCI_BOUNDARIES) with [89; 55; 34; 21; 13; 8; 5; 3; 2; 1]%Z.
    unfold Fib.FIBONACCI_BOUNDARIES. cbn [find In].
    repeat match goal with
           | |- context [(?a <=? d)%Z] => destruct (Z.leb_spec a d)
           end;
      try lia;
      (split; [reflexivity|]; split; [tauto|]; split; [lia|]; intros b Hb Hle;
       repeat (destruct Hb as [Hb|Hb]; [lia|]); contradiction).
Qed.

(** ** The decoration registry *)

Lemma NoDup_snoc : forall (A : Type) (l : list A) (x : A),
    NoDup l -> ~ In x l -> NoDup (l ++ [x]).
Proof.
  intros A l x Hnd Hx. induction l as [|y l IH]; simpl.
  - constructor; [intros [] | constructor].
  - inversion Hnd as [|? ? Hy Hnd']; subst. constructor.
    + rewrite in_app_iff. intros [H|[H|[]]]; [exact (Hy H)|].
      subst. apply Hx. left. reflexivity.
    + apply IH; [exact Hnd'|]. intro H. apply Hx. right. exact H.
Qed.

Lemma NoDup_values_key : forall (K : Type) (m : list (K * Handle)) k1 k2 h,
    NoDup (map snd m) -> In (k1, h) m -> In (k2, h) m -> k1 = k2.
Proof.
  intros K m k1 k2 h. induction m as [|[k v] m IH]; simpl; intros Hnd H1 H2.
  - contradiction.
  - inversion Hnd as [|? ? Hv Hnd']; subst.
    destruct H1 as [H1|H1], H2 as [H2|H2].
    + congruence.
    + inversion H1; subst. exfalso. apply Hv.
      change h with (snd (k2, h)). apply in_map. exact H2.
    + inversion H2; subst. exfalso. apply Hv.
      change h with (snd (k1, h)). apply in_map. exact H1.
    + apply IH; assumption.
Qed.

Section Registry.
Variable K : Type.
Variable K_eqb : K -> K -> bool.
Hypothesis K_eqb_eq : forall a b, K_eqb a b = true <-> a = b.
Variable K_le0 : K -> bool.
Variable calculateColor : K -> string.
Variables PAST_COLOR TEXT_COLOR : string.

Let lookup := getOrCreateDecorationType K_eqb K_le0 calculateColor TEXT_COLOR.
Let past : Handle := pastDateDecorationType.

Local Abbreviation wf := (wellFormed K_le0).

Lemma lookup_past : forall k s, K_le0 k = true -> lookup k s = (past, s).
Proof.
  intros k s H. unfold lookup, getOrCreateDecorationType. rewrite H. reflexivity.
Qed.

Lemma lookup_hit : forall k s h,
    K_le0 k = false -> JSMap.get K_eqb k (futureDecorationTypes s) = Some h ->
    lookup k s = (h, s).
Proof.
  intros k s h H0 Hg. unfold lookup, getOrCreateDecorationType.
  rewrite H0, Hg. reflexivity.
Qed.

Lemma lookup_miss : forall k s,
    K_le0 k = false -> JSMap.get K_eqb k (futureDecorationTypes s) = None ->
    lookup k s
    = (length (created s),
       {| created := created s
                     ++ [(length (created s),
                          {| backgroundColor := calculateColor k;
                             color := TEXT_COLOR |})];
          disposed := disposed s;
          futureDecorationTypes :=
            futureDecorationTypes s ++ [(k, length (created s))];
          subscriptions := subscriptions s ++ [length (created s)];
          activeEditor := activeEditor s |}).
Proof.
  intros k s H0 Hg. unfold lookup, getOrCreateDecorationType.
  rewrite H0, Hg. unfold createTextEditorDecorationType. cbn.
  rewrite (JSMap_set_absent _ _ K_eqb) by exact Hg. reflexivity.
Qed.

(** Asking twice gives the same handle and allocates nothing. *)
Lemma lookup_twice : forall k s,
    lookup k (snd (lookup k s)) = lookup k s.
Proof.
  intros k s. destruct (K_le0 k) eqn:H0.
  - rewrite !lookup_past by exact H0. reflexivity.
  - destruct (JSMap.get K_eqb k (futureDecorationTypes s)) as [h|] eqn:Hg.
    + rewrite (lookup_hit _ _ _ H0 Hg). cbn [snd]. apply lookup_hit; assumption.
    + rewrite (lookup_miss _ _ H0 Hg). cbn [snd].
      apply lookup_hit; [exact H0|]. cbn [futureDecorationTypes].
      rewrite <- (JSMap_set_absent _ _ K_eqb) by exact Hg.
      apply (JSMap_get_set_same _ _ K_eqb K_eqb_eq).
Qed.

Lemma wellFormed_load : wf (moduleLoad K PAST_COLOR TEXT_COLOR).
Proof.
  unfold wellFormed. cbn. repeat split; try constructor; try lia; contradiction.
Qed.

Lemma pristine_load : pristine (moduleLoad K PAST_COLOR TEXT_COLOR).
Proof. unfold pristine. cbn. repeat split. Qed.

Lemma wellFormed_lookup : forall k s, wf s -> wf (snd (lookup k s)).
Proof.
  intros k s Hwf. destruct (K_le0 k) eqn:H0.
  - rewrite lookup_past by exact H0. exact Hwf.
  - destruct (JSMap.get K_eqb k (futureDecorationTypes s)) as [h|] eqn:Hg.
    + rewrite (lookup_hit _ _ _ H0 Hg). exact Hwf.
    + rewrite (lookup_miss _ _ H0 Hg). cbn [snd].
      destruct Hwf as (Hc & Hlen & Hk & Hle & Hv & Hnv).
      unfold wellFormed. cbn [created futureDecorationTypes].
      unfold JSMap.keys, JSMap.values in *.
      rewrite !map_app, !length_app. cbn [map fst snd length].
      repeat split.
      * rewrite Hc at 1. rewrite Nat.add_1_r, seq_S. reflexivity.
      * lia.
      * apply NoDup_snoc; [exact Hk|].
        apply (JSMap_get_None_keys _ _ K_eqb K_eqb_eq). exact Hg.
      * intros k' Hin. apply in_app_iff in Hin.
        destruct Hin as [Hin|[Hin|[]]]; [apply Hle; exact Hin | subst; exact H0].
      * apply in_app_iff in H. destruct H as [H|[H|[]]]; [apply Hv in H|]; lia.
      * apply in_app_iff in H. destruct H as [H|[H|[]]]; [apply Hv in H|]; lia.
      * apply NoDup_snoc; [exact Hnv|]. intro Hin. apply Hv in Hin. lia.
Qed.

Lemma pristine_lookup : forall k s,
    wf s -> pristine s -> pristine (snd (lookup k s)).
Proof.
  intros k s Hwf Hp. destruct (K_le0 k) eqn:H0.
  - rewrite lookup_past by exact H0. exact Hp.
  - destruct (JSMap.get K_eqb k (futureDecorationTypes s)) as [h|] eqn:Hg.
    + rewrite (lookup_hit _ _ _ H0 Hg). exact Hp.
    + rewrite (lookup_miss _ _ H0 Hg). cbn [snd].
      destruct Hwf as (_ & Hlen & _). destruct Hp as (Hd & Hv & Hs).
      unfold pristine. cbn [created futureDecorationTypes disposed subscriptions].
      unfold JSMap.values in *.
      rewrite !map_app, !length_app. cbn [map snd length].
      repeat split.
      * exact Hd.
      * rewrite Hv.
        replace (length (created s) + 1 - 1) with (S (length (created s) - 1)) by lia.
        rewrite seq_S. f_equal. f_equal. lia.
      * rewrite Hs. reflexivity.
Qed.
End Registry.

Section RegistryLife.
Variable K : Type.
Variable K_eqb : K -> K -> bool.
Hypothesis K_eqb_eq : forall a b, K_eqb a b = true <-> a = b.
Variable K_le0 : K -> bool.
Variable calculateColor : K -> string.
Variables PAST_COLOR TEXT_COLOR : string.

Local Abbreviation lookup :=
  (getOrCreateDecorationType K_eqb K_le0 calculateColor TEXT_COLOR).
Local Abbreviation wf := (wellFormed K_le0).
Local Abbreviation stepR := (step K_eqb K_le0 calculateColor TEXT_COLOR).
Local Abbreviation reach :=
  (reachable K_eqb K_le0 calculateColor TEXT_COLOR PAST_COLOR).
Local Abbreviation life :=
  (lifetime K_eqb K_le0 calculateColor TEXT_COLOR PAST_COLOR).

(** A property of the registry that every lookup keeps is kept by the
    [forEach] loop of an update cycle. *)
Lemma applyGroups_keeps : forall (P : State K -> Prop),
    (forall k s, P s -> P (snd (lookup k s))) ->
    forall groups s e,
      P s ->
      P (fst (fold_left (applyGroup K_eqb K_le0 calculateColor TEXT_COLOR)
                        groups (s, e))).
Proof.
  intros P HP groups. induction groups as [|g groups IH]; intros s e Hs.
  - exact Hs.
  - cbn [fold_left]. unfold applyGroup at 2.
    pose proof (HP (fst g) s Hs) as Hs'.
    destruct (lookup (fst g) s) as [h s']. apply IH. exact Hs'.
Qed.

Lemma step_keeps : forall (P : State K -> Prop),
    (forall k s, P s -> P (snd (lookup k s))) ->
    (forall s e, P s -> P (setActiveEditor e s)) ->
    forall s s', stepR s s' -> P s -> P s'.
Proof.
  intros P Hl He s s' Hstep Hs. destruct Hstep as [k s | groups e s | e s].
  - apply Hl. exact Hs.
  - unfold render.
    pose proof (applyGroups_keeps P Hl groups s (clearDecorations s e) Hs) as Hf.
    destruct (fold_left _ groups (s, clearDecorations s e)) as [s1 e1].
    apply (He s1 (Some e1)). exact Hf.
  - apply He. exact Hs.
Qed.

Lemma step_wellFormed : forall s s', stepR s s' -> wf s -> wf s'.
Proof.
  apply step_keeps.
  - intros k s. apply wellFormed_lookup; assumption.
  - intros s e Hs. exact Hs.
Qed.

Lemma step_pristine : forall s s',
    stepR s s' -> wf s /\ pristine s -> wf s' /\ pristine s'.
Proof.
  apply (step_keeps (fun s => wf s /\ pristine s)).
  - intros k s [Hw Hp]. split.
    + apply wellFormed_lookup; assumption.
    + apply pristine_lookup; assumption.
  - intros s e Hs. exact Hs.
Qed.

Lemma reachable_pristine : forall s, reach s -> wf s /\ pristine s.
Proof.
  intros s Hr. induction Hr as [|s s' _ IH Hstep].
  - split; [apply wellFormed_load | apply pristine_load].
  - apply (step_pristine s s' Hstep IH).
Qed.

Lemma wellFormed_deactivate : forall s, wf s -> wf (deactivate s).
Proof.
  intros s (Hc & Hlen & _). unfold wellFormed. cbn.
  repeat split; try assumption; try constructor; try contradiction.
Qed.

Lemma lifetime_wellFormed : forall s, life s -> wf s.
Proof.
  intros s Hl. induction Hl as [|s s' _ IH Hstep|s _ IH].
  - apply wellFormed_load.
  - apply (step_wellFormed s s' Hstep IH).
  - apply wellFormed_deactivate. exact IH.
Qed.

Lemma reachable_lifetime : forall s, reach s -> life s.
Proof.
  intros s Hr. induction Hr as [|s s' _ IH Hstep].
  - constructor.
  - eapply life_step; [exact IH | exact Hstep].
Qed.

Lemma get_app_Some : forall k (h : Handle) m m',
    JSMap.get K_eqb k m = Some h -> JSMap.get K_eqb k (m ++ m') = Some h.
Proof.
  intros k h m m'. induction m as [|[k' v'] m IH]; simpl; intro H.
  - discriminate.
  - destruct (K_eqb k k'); [exact H | apply IH; exact H].
Qed.

(** Normal operation never removes or rebinds an entry of the registry. *)
Lemma step_keeps_entries : forall s s' k h,
    stepR s s' ->
    JSMap.get K_eqb k (futureDecorationTypes s) = Some h ->
    JSMap.get K_eqb k (futureDecorationTypes s') = Some h.
Proof.
  intros s s' k h Hstep.
  apply (step_keeps (fun s => JSMap.get K_eqb k (futureDecorationTypes s) = Some h));
    [| intros s0 e Hs; exact Hs | exact Hstep].
  intros k0 s0 Hs. destruct (K_le0 k0) eqn:H0.
  - rewrite lookup_past by exact H0. exact Hs.
  - destruct (JSMap.get K_eqb k0 (futureDecorationTypes s0)) as [h0|] eqn:Hg.
    + erewrite lookup_hit; [| exact H0 | exact Hg]. exact Hs.
    + erewrite lookup_miss; [| exact H0 | exact Hg]. cbn [snd futureDecorationTypes].
      apply get_app_Some. exact Hs.
Qed.


End RegistryLife.

Section Teardown.
Variable K : Type.
Variable K_eqb : K -> K -> bool.
Hypothesis K_eqb_eq : forall a b, K_eqb a b = true <-> a = b.
Variable K_le0 : K -> bool.
Variable calculateColor : K -> string.
Variables PAST_COLOR TEXT_COLOR : string.


(** In normal operation there is one allocation per registry entry, plus
    the past-date type. *)
Lemma reachable_one_handle_per_key : forall s : State K,
    reachable K_eqb K_le0 calculateColor TEXT_COLOR PAST_COLOR s ->
    NoDup (JSMap.keys (futureDecorationTypes s))
    /\ NoDup (JSMap.values (futureDecorationTypes s))
    /\ length (created s) = S (length (futureDecorationTypes s)).
Proof.
  intros s Hr. apply reachable_pristine in Hr; [|exact K_eqb_eq].
  destruct Hr as [(Hc & Hlen & Hk & _ & _ & Hnv) (_ & Hv & _)].
  repeat split; [exact Hk | exact Hnv |].
  apply (f_equal (@length Handle)) in Hv.
  unfold JSMap.values in Hv. rewrite length_map, length_seq in Hv. lia.
Qed.
End Teardown.

Lemma Linear_update_step : forall H today s,
    Linear.updateDecorations H today s = s
    \/ Linear.step s (Linear.updateDecorations H today s).
Proof.
  intros H today s. unfold Linear.updateDecorations.
  destruct (activeEditor s) as [e|]; [right | left; reflexivity].
  apply step_render.
Qed.

Lemma Fib_update_step : forall H today s,
    Fib.updateDecorations H today s = s
    \/ Fib.step s (Fib.updateDecorations H today s).
Proof.
  intros H today s. unfold Fib.updateDecorations.
  destruct (activeEditor s) as [e|]; [right | left; reflexivity].
  apply step_render.
Qed.

Lemma Linear_update_reachable : forall H today s,
    Linear.reachable s -> Linear.reachable (Linear.updateDecorations H today s).
Proof.
  intros H today s Hr. destruct (Linear_update_step H today s) as [E|Hs].
  - rewrite E. exact Hr.
  - eapply reach_step; [exact Hr | exact Hs].
Qed.

Lemma Fib_update_reachable : forall H today s,
    Fib.reachable s -> Fib.reachable (Fib.updateDecorations H today s).
Proof.
  intros H today s Hr. destruct (Fib_update_step H today s) as [E|Hs].
  - rewrite E. exact Hr.
  - eapply reach_step; [exact Hr | exact Hs].
Qed.

Lemma Linear_editor_reachable : forall e s,
    Linear.reachable s -> Linear.reachable (setActiveEditor e s).
Proof. intros e s Hr. eapply reach_step; [exact Hr | apply step_editor]. Qed.

Lemma Fib_editor_reachable : forall e s,
    Fib.reachable s -> Fib.reachable (setActiveEditor e s).
Proof. intros e s Hr. eapply reach_step; [exact Hr | apply step_editor]. Qed.



(** C8.  In normal operation, asking for the decoration type of a key twice
    gives the same handle and leaves the registry and the creation log as the
    first request left them; the registry has no key twice and no handle
    twice, and the editor has created one decoration type per entry besides
    the past-date one; no step of normal operation removes or rebinds an
    entry, so a later update cycle finds the handle created by an earlier
    one.  Only [deactivate] empties the registry. *)
Theorem style_handle_is_reused :
  forall (sl : Linear.State) (sf : Fib.State),
    Linear.reachable sl -> Fib.reachable sf ->
    ((forall k, Linear.getOrCreateDecorationType k
                  (snd (Linear.getOrCreateDecorationType k sl))
                = Linear.getOrCreateDecorationType k sl)
     /\ NoDup (JSMap.keys (futureDecorationTypes sl))
     /\ NoDup (JSMap.values (futureDecorationTypes sl))
     /\ length (created sl) = S (length (futureDecorationTypes sl))
     /\ (forall s' k h, Linear.step sl s' ->
            JSMap.get jsnum_eqb k (futureDecorationTypes sl) = Some h ->
            JSMap.get jsnum_eqb k (futureDecorationTypes s') = Some h)
     /\ (forall H today k h,
            jsnum_le0 k = false ->
            JSMap.get jsnum_eqb k (futureDecorationTypes sl) = Some h ->
            Linear.getOrCreateDecorationType k (Linear.updateDecorations H today sl)
            = (h, Linear.updateDecorations H today sl)))
    /\ ((forall c, Fib.getOrCreateDecorationType c
                     (snd (Fib.getOrCreateDecorationType c sf))
                   = Fib.getOrCreateDecorationType c sf)
        /\ NoDup (JSMap.keys (futureDecorationTypes sf))
        /\ NoDup (JSMap.values (futureDecorationTypes sf))
        /\ length (created sf) = S (length (futureDecorationTypes sf))
        /\ (forall s' c h, Fib.step sf s' ->
               JSMap.get Z.eqb c (futureDecorationTypes sf) = Some h ->
               JSMap.get Z.eqb c (futureDecorationTypes s') = Some h)
        /\ (forall H today c h,
               (c <=? 0)%Z = false ->
               JSMap.get Z.eqb c (futureDecorationTypes sf) = Some h ->
               Fib.getOrCreateDecorationType c (Fib.updateDecorations H today sf)
               = (h, Fib.updateDecorations H today sf))).
Proof.
  intros sl sf Hl Hf. split.
  - destruct (reachable_one_handle_per_key jsnum jsnum_eqb jsnum_eqb_eq _ _ _ _ sl Hl)
      as (Hk & Hv & Hlen).
    split; [intro k; apply lookup_twice; exact jsnum_eqb_eq|].
    split; [exact Hk|]. split; [exact Hv|]. split; [exact Hlen|]. split.
    + intros s' k h Hs Hg. eapply step_keeps_entries; eassumption.
    + intros H today k h H0 Hg. apply lookup_hit; [exact H0|].
      destruct (Linear_update_step H today sl) as [E|Hs].
      * rewrite E. exact Hg.
      * eapply step_keeps_entries; eassumption.
  - destruct (reachable_one_handle_per_key Z Z.eqb Z.eqb_eq _ _ _ _ sf Hf)
      as (Hk & Hv & Hlen).
    split; [intro k; apply lookup_twice; exact Z.eqb_eq|].
    split; [exact Hk|]. split; [exact Hv|]. split; [exact Hlen|]. split.
    + intros s' k h Hs Hg. eapply step_keeps_entries; eassumption.
    + intros H today k h H0 Hg. apply lookup_hit; [exact H0|].
      destruct (Fib_update_step H today sf) as [E|Hs].
      * rewrite E. exact Hg.
      * eapply step_keeps_entries; eassumption.
Qed.

Lemma style_handle_is_reused_witness :
  let today := daysFromCivil 2024 6 15 in
  let doc := T "2024-08-05 2024-08-06 2024-06-14" in
  let sl := Linear.updateDecorations strictUTC (msPerDay * today)%Z
              (setActiveEditor (Some {| document := doc; rendered := [] |})
                               Linear.moduleLoad) in
  let sf := Fib.updateDecorations strictUTC today
              (setActiveEditor (Some {| document := doc; rendered := [] |})
                               Fib.moduleLoad) in
  Linear.reachable sl /\ Fib.reachable sf
  /\ Linear.getOrCreateDecorationType (Num 51)
       (Linear.updateDecorations strictUTC (msPerDay * (today + 1))%Z sl)
     = (1, Linear.updateDecorations strictUTC (msPerDay * (today + 1))%Z sl)
  /\ Fib.getOrCreateDecorationType 34
       (Fib.updateDecorations strictUTC (today + 1)%Z sf)
     = (1, Fib.updateDecorations strictUTC (today + 1)%Z sf).
Proof.
  intros today doc sl sf.
  assert (Hl : Linear.reachable sl)
    by (apply Linear_update_reachable, Linear_editor_reachable; constructor).
  assert (Hf : Fib.reachable sf)
    by (apply Fib_update_reachable, Fib_editor_reachable; constructor).
  destruct (style_handle_is_reused sl sf Hl Hf)
    as [(_ & _ & _ & _ & _ & Cl) (_ & _ & _ & _ & _ & Cf)].
  split; [exact Hl|]. split; [exact Hf|]. split.
  - apply Cl; vm_compute; reflexivity.
  - apply Cf; vm_compute; reflexivity.
Defined.

Lemma Linear_update_lifetime : forall H today s,
    Linear.lifetime s -> Linear.lifetime (Linear.updateDecorations H today s).
Proof.
  intros H today s Hl. destruct (Linear_update_step H today s) as [E|Hs].
  - rewrite E. exact Hl.
  - eapply life_step; [exact Hl | exact Hs].
Qed.



(** ** Linear variant: keys, handles and colours *)

Lemma ceilDiv_spec : forall a b : Z,
    (0 < b)%Z -> (b * (ceilDiv a b - 1) < a <= b * ceilDiv a b)%Z.
Proof.
  intros a b Hb. unfold ceilDiv.
  pose proof (Z.div_mod (- a) b ltac:(lia)) as Hdm.
  pose proof (Z.mod_pos_bound (- a) b Hb) as Hm.
  nia.
Qed.




(** ** Colours *)

(** The colours of the Fibonacci variant, for the categories it produces:
    the hue grows by 21 per threshold, from 0 to 210. *)
Example fibonacci_colours :
  map Fib.calculateColor (0%Z :: Fib.FIBONACCI_BOUNDARIES)
  = [ "hsl(0, 100%, 50%)"; "hsl(21, 100%, 50%)"; "hsl(42, 100%, 50%)";
      "hsl(63, 100%, 50%)"; "hsl(84, 100%, 50%)"; "hsl(105, 100%, 50%)";
      "hsl(126, 100%, 50%)"; "hsl(147, 100%, 50%)"; "hsl(168, 100%, 50%)";
      "hsl(189, 100%, 50%)"; "hsl(210, 100%, 50%)" ]%string.
Proof. vm_compute. reflexivity. Qed.

Lemma fibonacci_hue_increases : forall c1 c2,
    In c1 Fib.FIBONACCI_BOUNDARIES -> In c2 Fib.FIBONACCI_BOUNDARIES ->
    (c1 < c2)%Z -> (Fib.hueOf c1 < Fib.hueOf c2)%Z.
Proof.
  intros c1 c2 H1 H2 Hlt. unfold Fib.FIBONACCI_BOUNDARIES in H1, H2. cbn [In] in H1, H2.
  repeat (destruct H1 as [H1|H1]; [subst c1|]); try contradiction;
    repeat (destruct H2 as [H2|H2]; [subst c2|]); try contradiction;
    try lia; vm_compute; reflexivity.
Qed.

(** The colours of the linear variant for the distances 1 to 17. *)
Example linear_colours_1_to_17 :
  map (fun d => Linear.calculateColor (Num d))
      [1; 2; 3; 4; 5; 6; 7; 8; 9; 10; 11; 12; 13; 14; 15; 16; 17]%Z
  = [ "rgb(240, 0, 15)"; "rgb(224, 0, 31)"; "rgb(209, 0, 46)";
      "rgb(194, 0, 61)"; "rgb(179, 0, 77)"; "rgb(163, 0, 92)";
      "rgb(148, 0, 107)"; "rgb(133, 0, 122)"; "rgb(117, 0, 138)";
      "rgb(102, 0, 153)"; "rgb(87, 0, 168)"; "rgb(71, 0, 184)";
      "rgb(56, 0, 199)"; "rgb(41, 0, 214)"; "rgb(26, 0, 230)";
      "rgb(10, 0, 245)"; "rgb(0, 0, 255)" ]%string.
Proof. vm_compute. reflexivity. Qed.

Lemma getFibonacciCategory_produced : forall d,
    Fib.getFibonacciCategory d = 0%Z
    \/ In (Fib.getFibonacciCategory d) Fib.FIBONACCI_BOUNDARIES.
Proof.
  intro d. unfold Fib.getFibonacciCategory.
  change Fib.MAX_FIBONACCI_NUMBER with 89%Z.
  destruct (Z.leb_spec d 0); [left; reflexivity|]. right.
  destruct (Z.ltb_spec 89 d); [vm_compute; tauto|].
  change (rev Fib.FIBONACCI_BOUNDARIES) with [89; 55; 34; 21; 13; 8; 5; 3; 2; 1]%Z.
  unfold Fib.FIBONACCI_BOUNDARIES. cbn [find In].
  repeat match goal with
         | |- context [(?a <=? d)%Z] => destruct (Z.leb_spec a d)
         end; tauto.
Qed.




(** ** Scheduler *)

(** Two throttled requests less than the quiet period apart lead to one call
    of [updateDecorations], 200 ms after the second request. *)
Lemma debounce_runs_once : forall s d1 d2,
    Scheduler.tracked s -> d1 < Scheduler.QUIET_PERIOD ->
    Scheduler.QUIET_PERIOD <= d2 ->
    let s' := Scheduler.run [Scheduler.Trigger true; Scheduler.Elapse d1;
                             Scheduler.Trigger true; Scheduler.Elapse d2] s in
    Scheduler.runs s'
    = Scheduler.runs s ++ [Scheduler.clock s + d1 + Scheduler.QUIET_PERIOD]
    /\ Scheduler.armed s' = [].
Proof.
  intros s d1 d2 Htr H1 H2. unfold Scheduler.QUIET_PERIOD in *.
  destruct s as [tm ar nx ck rs]. unfold Scheduler.tracked in Htr. cbn in Htr.
  assert (Hclear : match tm with
                   | Some id => filter (fun p => negb (Nat.eqb (fst p) id)) ar
                   | None => ar
                   end = []).
  { destruct Htr as [-> | (id & due & -> & ->)].
    - destruct tm; reflexivity.
    - cbn. rewrite Nat.eqb_refl. reflexivity. }
  cbv zeta. unfold Scheduler.run. cbn [fold_left Scheduler.handle].
  unfold Scheduler.triggerUpdateDecorations at 2.
  assert (E1 : Scheduler.armed
                 (match Scheduler.timeout {| Scheduler.timeout := tm; Scheduler.armed := ar;
                                            Scheduler.nextId := nx; Scheduler.clock := ck;
                                            Scheduler.runs := rs |} with
                  | Some id => Scheduler.assignTimeout None
                                 (Scheduler.clearTimeout id
                                    {| Scheduler.timeout := tm; Scheduler.armed := ar;
                                       Scheduler.nextId := nx; Scheduler.clock := ck;
                                       Scheduler.runs := rs |})
                  | None => {| Scheduler.timeout := tm; Scheduler.armed := ar;
                               Scheduler.nextId := nx; Scheduler.clock := ck;
                               Scheduler.runs := rs |}
                  end) = []).
  { cbn. destruct tm; cbn; exact Hclear. }
  destruct tm as [id|]; cbn in E1 |- *; rewrite ?E1; cbn;
    unfold Scheduler.elapse, Scheduler.fire, Scheduler.QUIET_PERIOD; cbn;
    repeat match goal with
           | |- context [Nat.leb ?a ?b] => destruct (Nat.leb_spec a b); try lia; cbn
           | |- context [Nat.eqb ?a ?a] => rewrite Nat.eqb_refl; cbn
           end;
    (split; [f_equal; f_equal; lia | reflexivity]).
Qed.

(** [triggerUpdateDecorations(false)] runs at once and leaves no timer armed. *)
Lemma immediate_trigger_cancels : forall s,
    Scheduler.tracked s ->
    let s' := Scheduler.triggerUpdateDecorations false s in
    Scheduler.runs s' = Scheduler.runs s ++ [Scheduler.clock s]
    /\ Scheduler.armed s' = [] /\ Scheduler.timeout s' = None.
Proof.
  intros [tm ar nx ck rs] Htr. unfold Scheduler.tracked in Htr. cbn in Htr.
  destruct Htr as [-> | (id & due & -> & ->)].
  - destruct tm; cbn; repeat split; reflexivity.
  - cbn. rewrite Nat.eqb_refl. cbn. repeat split; reflexivity.
Qed.

(** C6 (the code at the failing input).  A text change arms the timer; the
    refresh command 50 ms later calls [updateDecorations] at once but leaves
    the timer armed, and the timer calls [updateDecorations] a second time
    when it fires at 200 ms. *)
Theorem refresh_command_leaves_the_timer_armed :
  let afterRefresh :=
    Scheduler.run [Scheduler.Trigger true; Scheduler.Elapse 50; Scheduler.Refresh true]
                  Scheduler.start in
  Scheduler.runs afterRefresh = [50]
  /\ Scheduler.armed afterRefresh = [(0, 200)]
  /\ Scheduler.runs (Scheduler.elapse 150 afterRefresh) = [50; 200]
  /\ Scheduler.runs (Scheduler.run [Scheduler.Trigger true; Scheduler.Elapse 50;
                                    Scheduler.Trigger false; Scheduler.Elapse 150]
                                   Scheduler.start) = [50].
Proof. vm_compute. repeat split; reflexivity. Qed.

(** A remark on the linear variant: groups with different keys of 0 or less
    are applied to the same past-date handle one after the other, and each
    [setDecorations] replaces the ranges of the one before. *)
Example linear_past_groups_replace_each_other :
  let today := (msPerDay * daysFromCivil 2024 6 15)%Z in
  let doc := T "2024-06-14 2024-06-13" in
  let s := Linear.updateDecorations strictUTC today
             (setActiveEditor (Some {| document := doc; rendered := [] |})
                              Linear.moduleLoad) in
  Linear.collect strictUTC today doc = [(Num (-1), [(0, 10)]); (Num (-2), [(11, 21)])]
  /\ option_map rendered (activeEditor s) = Some [(0, [(11, 21)])].
Proof. vm_compute. split; reflexivity. Qed.

(** ** Sanity checks of the calendar model *)

Example epoch_is_day_zero : daysFromCivil 1970 1 1 = 0%Z.
Proof. reflexivity. Qed.

Example june_15_2024_is_a_saturday : Fib.getDay (daysFromCivil 2024 6 15) = 6%Z.
Proof. reflexivity. Qed.

Example leap_day_2024_is_valid_2023_is_not :
  Fib.isValidDate (T "2024-02-29") = true /\ Fib.isValidDate (T "2023-02-29") = false
  /\ Fib.isValidDate (T "2024-04-31") = false /\ Fib.isValidDate (T "2024-13-01") = false.
Proof. vm_compute. repeat split; reflexivity. Qed.

(** West of UTC, truncating the UTC midnight of a date-only string to local
    midnight lands on the day before. *)
Example west_of_utc_the_date_is_the_day_before :
  Fib.dateOf strictWest (T "2024-06-15") = daysFromCivil 2024 6 14
  /\ Fib.dateOf strictUTC (T "2024-06-15") = daysFromCivil 2024 6 15.
Proof. vm_compute. split; reflexivity. Qed.

(* ================================================================== *)
(** * Further properties of the code *)

(** ** The two patterns compared *)

Lemma space_not_word : forall t k,
    testAt is_space t k = true -> testAt is_word t k = false.
Proof.
  intros t k. unfold testAt. destruct (nth_error t k) as [c|]; [|discriminate].
  intro H. destruct (is_word c) eqn:W; [exfalso | reflexivity].
  unfold is_space in H. unfold is_word, is_digit in W.
  rewrite ?orb_true_iff, ?andb_true_iff, ?N.leb_le, ?N.eqb_eq in H.
  rewrite ?orb_true_iff, ?andb_true_iff, ?N.leb_le, ?N.eqb_eq in W.
  lia.
Qed.

Lemma testAt_end : forall p t, testAt p t (length t) = false.
Proof.
  intros p t. unfold testAt.
  assert (E : nth_error t (length t) = None) by (apply nth_error_None; lia).
  rewrite E. reflexivity.
Qed.

Lemma wordBoundaryMatchAt_iff :
  forall (t : text) (i : nat),
    wordBoundaryMatchAt t i = true
    <-> shapeAt t i = true
        /\ match i with O => True | S j => testAt is_word t j = false end
        /\ testAt is_word t (i + 10) = false.
Proof.
  intros t i. unfold wordBoundaryMatchAt, tokenLength. split.
  - intro H. apply andb_true_iff in H. destruct H as [H Hend].
    apply andb_true_iff in H. destruct H as [Hstart Hs].
    pose proof (shapeAt_inv _ _ Hs) as (I0 & _ & _ & _ & _ & _ & _ & _ & _ & I9).
    apply digit_is_word in I0. apply digit_is_word in I9.
    split; [exact Hs|]. split.
    + unfold wordBoundary in Hstart. rewrite I0 in Hstart.
      destruct i as [|j]; [exact I|]. destruct (testAt is_word t j); [discriminate | reflexivity].
    + unfold wordBoundary in Hend. replace (i + 10) with (S (i + 9)) in * by lia.
      rewrite I9 in Hend. destruct (testAt is_word t (S (i + 9))); [discriminate | reflexivity].
  - intros (Hs & Hprev & Hnext).
    pose proof (shapeAt_inv _ _ Hs) as (I0 & _ & _ & _ & _ & _ & _ & _ & _ & I9).
    apply digit_is_word in I0. apply digit_is_word in I9.
    rewrite Hs. unfold wordBoundary. rewrite I0.
    replace (i + 10) with (S (i + 9)) in * by lia. rewrite I9, Hnext.
    destruct i as [|j]; [reflexivity|]. rewrite Hprev. reflexivity.
Qed.

(** X2.  The word-boundary pattern matches at an offset exactly when the ten
    characters there have the date shape and neither neighbour is a letter,
    a digit or an underscore.  Any other neighbour is accepted, a hyphen
    included: the token of [2023-01-01-extra] matches. *)
Theorem word_boundary_accepts_any_non_word_neighbour :
  forall (t : text) (i : nat),
    wordBoundaryMatchAt t i = true
    <-> shapeAt t i = true
        /\ match i with O => True | S j => testAt is_word t j = false end
        /\ testAt is_word t (i + 10) = false.
Proof. exact wordBoundaryMatchAt_iff. Qed.

(** X1.  Every token the whitespace pattern finds is also found by the
    word-boundary pattern, at the same offset. *)
Theorem whitespace_matches_are_word_boundary_matches :
  forall t : text,
    (forall i, whitespaceMatchAt t i = true -> wordBoundaryMatchAt t i = true)
    /\ incl (allMatches whitespaceMatchAt t) (allMatches wordBoundaryMatchAt t).
Proof.
  intro t.
  assert (Hsub : forall i, whitespaceMatchAt t i = true -> wordBoundaryMatchAt t i = true).
  { intros i H. apply wordBoundaryMatchAt_iff.
    unfold whitespaceMatchAt, tokenLength in H.
    apply andb_true_iff in H. destruct H as [H Hend].
    apply andb_true_iff in H. destruct H as [Hstart Hs].
    split; [exact Hs|]. split.
    - destruct i as [|j]; [exact I|]. apply space_not_word. exact Hstart.
    - unfold aheadSpaceOrEnd in Hend. apply orb_true_iff in Hend.
      destruct Hend as [Hsp|Hlen].
      + apply space_not_word. exact Hsp.
      + apply Nat.eqb_eq in Hlen. rewrite Hlen. apply testAt_end. }
  split; [exact Hsub|].
  intros i Hin.
  apply (allMatches_In _ whitespaceMatchAt_width whitespaceMatchAt_apart) in Hin.
  apply (allMatches_In _ wordBoundaryMatchAt_width wordBoundaryMatchAt_apart).
  apply Hsub. exact Hin.
Qed.

(** The converse fails on a token followed by a hyphen. *)
Example hyphen_suffix_matches_word_boundary_only :
  allMatches wordBoundaryMatchAt (T "2023-01-01-extra") = [0]
  /\ allMatches whitespaceMatchAt (T "2023-01-01-extra") = []
  /\ allMatches wordBoundaryMatchAt (T "2024-06-15, x2024-06-16 2024-06-17_") = [0].
Proof. vm_compute. repeat split; reflexivity. Qed.

(** X3.  Matches never overlap: two matches of the word-boundary pattern
    start at least ten characters apart, two matches of the whitespace
    pattern at least eleven, so a single whitespace character may flank two
    tokens. *)
Theorem matches_do_not_overlap :
  forall (t : text) (i j : nat),
    i < j ->
    (wordBoundaryMatchAt t i = true -> wordBoundaryMatchAt t j = true -> i + 10 <= j)
    /\ (whitespaceMatchAt t i = true -> whitespaceMatchAt t j = true -> i + 11 <= j).
Proof.
  intros t i j Hlt. split.
  - intros Hi Hj. destruct (Nat.lt_ge_cases j (i + 10)) as [Hc|Hc]; [|exact Hc].
    pose proof (wordBoundaryMatchAt_apart t i j Hi (conj Hlt Hc)). congruence.
  - intros Hi Hj. destruct (Nat.lt_ge_cases j (i + 10)) as [Hc|Hc].
    + pose proof (whitespaceMatchAt_apart t i j Hi (conj Hlt Hc)). congruence.
    + destruct (Nat.eq_dec j (i + 10)) as [E|E]; [|lia]. exfalso. subst j.
      unfold whitespaceMatchAt, tokenLength in Hi, Hj.
      apply andb_true_iff in Hi. destruct Hi as [_ Hend].
      apply andb_true_iff in Hj. destruct Hj as [Hj _].
      apply andb_true_iff in Hj. destruct Hj as [_ Hs].
      apply shapeAt_inv in Hs. destruct Hs as (J0 & _).
      unfold aheadSpaceOrEnd in Hend. rewrite (digit_not_space _ _ J0) in Hend.
      apply Nat.eqb_eq in Hend. apply testAt_length in J0. lia.
Qed.

Lemma matches_do_not_overlap_witness :
  let t := T "2024-06-15 2024-06-16" in
  0 < 11 /\ whitespaceMatchAt t 0 = true /\ whitespaceMatchAt t 11 = true
  /\ wordBoundaryMatchAt t 0 = true /\ wordBoundaryMatchAt t 11 = true
  /\ 0 + 10 <= 11 /\ 0 + 11 <= 11.
Proof.
  intro t.
  assert (Hlt : 0 < 11) by lia.
  assert (W0 : whitespaceMatchAt t 0 = true) by (vm_compute; reflexivity).
  assert (W1 : whitespaceMatchAt t 11 = true) by (vm_compute; reflexivity).
  assert (B0 : wordBoundaryMatchAt t 0 = true) by (vm_compute; reflexivity).
  assert (B1 : wordBoundaryMatchAt t 11 = true) by (vm_compute; reflexivity).
  destruct (matches_do_not_overlap t 0 11 Hlt) as [Hb Hw].
  repeat split; try assumption.
  - exact (Hb B0 B1).
  - exact (Hw W0 W1).
Defined.

(** ** The groups partition the styled tokens *)

Section GroupingPartition.
Variables (K A : Type).
Variable eqb : K -> K -> bool.
Hypothesis eqb_eq : forall a b, eqb a b = true <-> a = b.
Variables (keep : A -> bool) (key : A -> K) (rng : A -> Range).

Lemma concat_values_push : forall k r (m : JSMap.t K (list Range)),
    Permutation (concat (JSMap.values (pushDecoration eqb k r m)))
                (concat (JSMap.values m) ++ [r]).
Proof.
  intros k r m. unfold pushDecoration.
  destruct (JSMap.get eqb k m) as [rs|] eqn:Hg.
  - revert Hg. induction m as [|[k' v'] m IH]; simpl; intro Hg.
    + discriminate.
    + destruct (eqb k k') eqn:E; simpl.
      * inversion Hg; subst. rewrite <- !app_assoc.
        apply Permutation_app_head. apply Permutation_app_comm.
      * rewrite <- app_assoc. apply Permutation_app_head. apply IH. exact Hg.
  - rewrite (JSMap_set_absent _ _ eqb) by exact Hg.
    unfold JSMap.values. rewrite map_app, concat_app. simpl.
    rewrite ?app_nil_r. apply Permutation_refl.
Qed.

Lemma concat_values_fold : forall l (m : JSMap.t K (list Range)),
    Permutation
      (concat (JSMap.values
                 (fold_left (fun m a => if keep a
                                        then pushDecoration eqb (key a) (rng a) m
                                        else m) l m)))
      (concat (JSMap.values m) ++ map rng (filter keep l)).
Proof.
  induction l as [|a l IH]; intro m; simpl.
  - rewrite app_nil_r. apply Permutation_refl.
  - eapply Permutation_trans; [apply IH|].
    destruct (keep a); simpl.
    + eapply Permutation_trans;
        [apply Permutation_app_tail; apply concat_values_push|].
      rewrite <- app_assoc. apply Permutation_refl.
    + apply Permutation_refl.
Qed.
End GroupingPartition.

(** X4.  The groups of [decorationsMap] partition the styled tokens: taken
    together they hold one range per token of the pattern in the linear
    variant, and one range per validated token in the Fibonacci variant, no
    range twice and none missing. *)
Theorem groups_partition_the_tokens :
  forall (H : Host) (t : text),
    (forall today,
        Permutation (concat (JSMap.values (Linear.collect H today t)))
                    (map (Linear.rangeOf t) (allMatches wordBoundaryMatchAt t)))
    /\ (forall today,
           Permutation (concat (JSMap.values (Fib.collect H today t)))
                       (map (Fib.rangeOf t)
                            (filter (fun i => Fib.isValidDate (tokenAt t i))
                                    (allMatches whitespaceMatchAt t)))).
Proof.
  intros H t. split; intro today.
  - unfold Linear.collect.
    rewrite (fold_left_pointwise _ _ (Linear.visit H today t)
               (fun m i => if (fun _ : nat => true) i
                           then pushDecoration jsnum_eqb (Linear.diffDaysAt H today t i)
                                               (Linear.rangeOf t i) m
                           else m))
      by reflexivity.
    eapply Permutation_trans;
      [exact (concat_values_fold jsnum nat jsnum_eqb (fun _ => true)
                (Linear.diffDaysAt H today t) (Linear.rangeOf t) _ _)|].
    cbn [JSMap.empty JSMap.values map concat app].
    replace (filter (fun _ : nat => true) (allMatches wordBoundaryMatchAt t))
      with (allMatches wordBoundaryMatchAt t); [apply Permutation_refl|].
    generalize (allMatches wordBoundaryMatchAt t). intro l.
    induction l as [|x l IH]; simpl; [reflexivity | f_equal; exact IH].
  - unfold Fib.collect.
    rewrite (fold_left_pointwise _ _ (Fib.visit H today t)
               (fun m i => if Fib.isValidDate (tokenAt t i)
                           then pushDecoration Z.eqb (Fib.categoryAt H today t i)
                                               (Fib.rangeOf t i) m
                           else m))
      by (intros m i; unfold Fib.visit; destruct (Fib.isValidDate (tokenAt t i)); reflexivity).
    exact (concat_values_fold Z nat Z.eqb (fun i => Fib.isValidDate (tokenAt t i))
             (Fib.categoryAt H today t) (Fib.rangeOf t) _ _).
Qed.

(** ** Buckets and distances *)

Lemma getFibonacciCategory_cases : forall d,
    ((d <= 0)%Z /\ Fib.getFibonacciCategory d = 0%Z)
    \/ ((89 < d)%Z /\ Fib.getFibonacciCategory d = 89%Z)
    \/ ((0 < d <= 89)%Z
        /\ In (Fib.getFibonacciCategory d) Fib.FIBONACCI_BOUNDARIES
        /\ (Fib.getFibonacciCategory d <= d)%Z
        /\ forall b, In b Fib.FIBONACCI_BOUNDARIES -> (b <= d)%Z ->
                     (b <= Fib.getFibonacciCategory d)%Z).
Proof.
  intro d. unfold Fib.getFibonacciCategory.
  change Fib.MAX_FIBONACCI_NUMBER with 89%Z.
  destruct (Z.leb_spec d 0); [left; split; [assumption | reflexivity]|]. right.
  destruct (Z.ltb_spec 89 d); [left; split; [assumption | reflexivity]|]. right.
  split; [lia|].
  change (rev Fib.FIBONACCI_BOUNDARIES) with [89; 55; 34; 21; 13; 8; 5; 3; 2; 1]%Z.
  unfold Fib.FIBONACCI_BOUNDARIES. cbn [find In].
  repeat match goal with
         | |- context [(?a <=? d)%Z] => destruct (Z.leb_spec a d)
         end;
    try lia;
    (split; [tauto|]; split; [lia|]; intros b Hb Hle;
     repeat (destruct Hb as [Hb|Hb]; [lia|]); contradiction).
Qed.

Lemma boundaries_range : forall b,
    In b Fib.FIBONACCI_BOUNDARIES -> (1 <= b <= 89)%Z.
Proof.
  intros b Hb. unfold Fib.FIBONACCI_BOUNDARIES in Hb. cbn [In] in Hb.
  repeat (destruct Hb as [Hb|Hb]; [lia|]). contradiction.
Qed.

Lemma getFibonacciCategory_order :
  forall d1 d2 : Z,
    (d1 <= d2)%Z ->
    (Fib.getFibonacciCategory d1 <= Fib.getFibonacciCategory d2)%Z
    /\ Fib.getFibonacciCategory (Fib.getFibonacciCategory d1)
       = Fib.getFibonacciCategory d1
    /\ (0 <= Fib.getFibonacciCategory d1 <= 89)%Z
    /\ (Fib.getFibonacciCategory d1 <= Z.max 0 d1)%Z.
Proof.
  intros d1 d2 Hle.
  destruct (getFibonacciCategory_cases d1)
    as [[H1 E1] | [[H1 E1] | (H1 & I1 & L1 & M1)]];
    destruct (getFibonacciCategory_cases d2)
      as [[H2 E2] | [[H2 E2] | (H2 & I2 & L2 & M2)]];
    try lia.
  - rewrite E1, E2. repeat split; try lia; try reflexivity.
  - rewrite E1, E2. repeat split; try lia; try reflexivity.
  - rewrite E1. pose proof (boundaries_range _ I2). repeat split; try lia; try reflexivity.
  - rewrite E1, E2. repeat split; try lia; try reflexivity.
  - pose proof (boundaries_range _ I1) as R1. rewrite E2. split; [lia|].
    split; [|lia].
    destruct (getFibonacciCategory_cases (Fib.getFibonacciCategory d1))
      as [[H3 E3] | [[H3 E3] | (H3 & I3 & L3 & M3)]]; try lia.
    pose proof (M3 _ I1 ltac:(lia)). lia.
  - pose proof (boundaries_range _ I1) as R1. split; [apply M2; [exact I1 | lia]|].
    split; [|lia].
    destruct (getFibonacciCategory_cases (Fib.getFibonacciCategory d1))
      as [[H3 E3] | [[H3 E3] | (H3 & I3 & L3 & M3)]]; try lia.
    pose proof (M3 _ I1 ltac:(lia)). lia.
Qed.

(** X5.  Bucketing respects the order of distances, and a category is its
    own bucket; the category lies between 0 and 89 and never exceeds a
    positive distance. *)
Theorem fibonacci_category_is_monotone_and_idempotent :
  forall d1 d2 : Z,
    (d1 <= d2)%Z ->
    (Fib.getFibonacciCategory d1 <= Fib.getFibonacciCategory d2)%Z
    /\ Fib.getFibonacciCategory (Fib.getFibonacciCategory d1)
       = Fib.getFibonacciCategory d1
    /\ (0 <= Fib.getFibonacciCategory d1 <= 89)%Z
    /\ (Fib.getFibonacciCategory d1 <= Z.max 0 d1)%Z.
Proof. exact getFibonacciCategory_order. Qed.

Lemma fibonacci_category_is_monotone_and_idempotent_witness :
  (49 <= 60)%Z
  /\ (Fib.getFibonacciCategory 49 <= Fib.getFibonacciCategory 60)%Z
  /\ Fib.getFibonacciCategory (Fib.getFibonacciCategory 49) = Fib.getFibonacciCategory 49.
Proof.
  assert (H : (49 <= 60)%Z) by lia.
  destruct (fibonacci_category_is_monotone_and_idempotent 49 60 H) as (Hm & Hi & _).
  split; [exact H|]. split; [exact Hm | exact Hi].
Defined.

Lemma weekdaysThrough_split : forall a n m,
    weekdaysThrough a (n + S m)
    = (weekdaysThrough a n + weekdaysThrough (a + Z.of_nat n + 1) m)%Z.
Proof.
  intros a n m. induction m as [|m IH].
  - replace (n + 1) with (S n) by lia. cbn [weekdaysThrough].
    replace (a + Z.of_nat n + 1 + Z.of_nat 0)%Z with (a + Z.of_nat (S n))%Z by lia.
    lia.
  - replace (n + S (S m)) with (S (n + S m)) by lia.
    cbn [weekdaysThrough]. rewrite IH.
    replace (a + Z.of_nat n + 1 + Z.of_nat (S m))%Z
      with (a + Z.of_nat (S (n + S m)))%Z by lia.
    lia.
Qed.

Lemma weekdaysThrough_bound : forall a n,
    (weekdaysThrough a n <= Z.of_nat n + 1)%Z.
Proof.
  intros a n. induction n as [|n IH]; cbn [weekdaysThrough].
  - destruct (Fib.isWeekend _); lia.
  - destruct (Fib.isWeekend _); lia.
Qed.

Lemma signedDiffDays_swap :
  forall a b : Z, Fib.signedDiffDays a b = (- Fib.signedDiffDays b a)%Z.
Proof.
  intros a b. unfold Fib.signedDiffDays.
  destruct (Z.ltb_spec b a), (Z.ltb_spec a b); try lia.
  assert (a = b) by lia. subst b.
  unfold Fib.calculateBusinessDays. rewrite Z.eqb_refl. reflexivity.
Qed.

(** X6.  Swapping today and the date negates the business-day distance. *)
Theorem business_day_distance_is_antisymmetric :
  forall a b : Z, Fib.signedDiffDays a b = (- Fib.signedDiffDays b a)%Z.
Proof. exact signedDiffDays_swap. Qed.

Lemma signedDiffDays_order :
  forall today date1 date2 : Z,
    (date1 <= date2)%Z ->
    (Fib.signedDiffDays today date1 <= Fib.signedDiffDays today date2)%Z
    /\ (Z.abs (Fib.signedDiffDays today date1) <= Z.abs (date1 - today) + 1)%Z.
Proof.
  intros today d1 d2 Hle.
  assert (Hval : forall d,
             ((d < today)%Z /\ Fib.signedDiffDays today d
                               = (- weekdaysThrough d (Z.to_nat (today - d)))%Z)
             \/ (d = today /\ Fib.signedDiffDays today d = 0%Z)
             \/ ((today < d)%Z /\ Fib.signedDiffDays today d
                                  = weekdaysThrough today (Z.to_nat (d - today)))).
  { intro d. unfold Fib.signedDiffDays.
    destruct (Z.ltb_spec d today) as [Hlt|Hge].
    - left. split; [exact Hlt|]. rewrite calculateBusinessDays_through by exact Hlt. reflexivity.
    - right. destruct (Z.eq_dec d today) as [->|Hne].
      + left. split; [reflexivity|]. unfold Fib.calculateBusinessDays.
        rewrite Z.eqb_refl. reflexivity.
      + right. split; [lia|]. apply calculateBusinessDays_through. lia. }
  split.
  - destruct (Hval d1) as [[H1 E1] | [[H1 E1] | [H1 E1]]];
      destruct (Hval d2) as [[H2 E2] | [[H2 E2] | [H2 E2]]];
      rewrite E1, E2; try lia.
    + destruct (Z.eq_dec d1 d2) as [->|Hne]; [lia|].
      replace (Z.to_nat (today - d1))
        with (Z.to_nat (d2 - d1 - 1) + S (Z.to_nat (today - d2))) by lia.
      rewrite weekdaysThrough_split.
      replace (d1 + Z.of_nat (Z.to_nat (d2 - d1 - 1)) + 1)%Z with d2 by lia.
      pose proof (weekdaysThrough_nonneg d1 (Z.to_nat (d2 - d1 - 1))). lia.
    + pose proof (weekdaysThrough_nonneg d1 (Z.to_nat (today - d1))). lia.
    + pose proof (weekdaysThrough_nonneg d1 (Z.to_nat (today - d1))).
      pose proof (weekdaysThrough_nonneg today (Z.to_nat (d2 - today))). lia.
    + pose proof (weekdaysThrough_nonneg today (Z.to_nat (d2 - today))). lia.
    + destruct (Z.eq_dec d1 d2) as [->|Hne]; [lia|].
      replace (Z.to_nat (d2 - today))
        with (Z.to_nat (d1 - today) + S (Z.to_nat (d2 - d1 - 1))) by lia.
      rewrite weekdaysThrough_split.
      pose proof (weekdaysThrough_nonneg (today + Z.of_nat (Z.to_nat (d1 - today)) + 1)
                                         (Z.to_nat (d2 - d1 - 1))).
      lia.
  - destruct (Hval d1) as [[H1 E1] | [[H1 E1] | [H1 E1]]]; rewrite E1.
    + pose proof (weekdaysThrough_nonneg d1 (Z.to_nat (today - d1))).
      pose proof (weekdaysThrough_bound d1 (Z.to_nat (today - d1))). lia.
    + lia.
    + pose proof (weekdaysThrough_nonneg today (Z.to_nat (d1 - today))).
      pose proof (weekdaysThrough_bound today (Z.to_nat (d1 - today))). lia.
Qed.

(** X7.  The business-day distance grows with the date (never the other way
    round), and its magnitude is at most the number of calendar days between
    the two dates plus one. *)
Theorem business_day_distance_is_monotone :
  forall today date1 date2 : Z,
    (date1 <= date2)%Z ->
    (Fib.signedDiffDays today date1 <= Fib.signedDiffDays today date2)%Z
    /\ (Z.abs (Fib.signedDiffDays today date1) <= Z.abs (date1 - today) + 1)%Z.
Proof. exact signedDiffDays_order. Qed.

Lemma business_day_distance_is_monotone_witness :
  let today := daysFromCivil 2024 6 14 in
  (today + 1 <= today + 3)%Z
  /\ (Fib.signedDiffDays today (today + 1) <= Fib.signedDiffDays today (today + 3))%Z.
Proof.
  intro today.
  assert (H : (today + 1 <= today + 3)%Z) by lia.
  destruct (business_day_distance_is_monotone today (today + 1) (today + 3) H) as [Hm _].
  split; [exact H | exact Hm].
Defined.

Lemma weekdays_in_seven_days : forall a, weekdaysThrough a 6 = 5%Z.
Proof.
  intro a. cbn [weekdaysThrough]. unfold Fib.isWeekend, Fib.getDay.
  cbn [Z.of_nat Pos.of_succ_nat Pos.succ].
  pose proof (Z.mod_pos_bound (a + 4) 7 ltac:(lia)) as Hb.
  assert (Hk : forall k, (0 <= k < 7)%Z ->
                         ((a + k + 4) mod 7 = ((a + 4) mod 7 + k) mod 7)%Z).
  { intros k Hk. rewrite Zplus_mod_idemp_l. f_equal. lia. }
  rewrite !Hk by lia.
  set (r := ((a + 4) mod 7)%Z) in *.
  assert (Hr : r = 0%Z \/ r = 1%Z \/ r = 2%Z \/ r = 3%Z \/ r = 4%Z \/ r = 5%Z \/ r = 6%Z)
    by lia.
  destruct Hr as [-> | [-> | [-> | [-> | [-> | [-> | ->]]]]]]; reflexivity.
Qed.

Lemma weekdays_in_whole_weeks : forall a n,
    0 < n -> weekdaysThrough a (7 * n - 1) = (5 * Z.of_nat n)%Z.
Proof.
  intros a n Hn. induction n as [|n IH]; [lia|].
  destruct n as [|n].
  - apply weekdays_in_seven_days.
  - replace (7 * S (S n) - 1) with ((7 * S n - 1) + S 6) by lia.
    rewrite weekdaysThrough_split, IH by lia.
    rewrite weekdays_in_seven_days. lia.
Qed.

(** X8.  A date a whole number of weeks ahead is five business days per week
    away, plus one when today is not a weekend day (both end days are
    counted). *)
Theorem business_day_distance_over_whole_weeks :
  forall (today : Z) (n : nat),
    0 < n ->
    Fib.signedDiffDays today (today + 7 * Z.of_nat n)%Z
    = (5 * Z.of_nat n + (if Fib.isWeekend today then 0 else 1))%Z
    /\ Fib.signedDiffDays (today + 7 * Z.of_nat n)%Z today
       = (- (5 * Z.of_nat n + (if Fib.isWeekend today then 0 else 1)))%Z.
Proof.
  intros today n Hn.
  assert (E : Fib.signedDiffDays today (today + 7 * Z.of_nat n)%Z
              = (5 * Z.of_nat n + (if Fib.isWeekend today then 0 else 1))%Z).
  { unfold Fib.signedDiffDays.
    destruct (Z.ltb_spec (today + 7 * Z.of_nat n)%Z today) as [Hc|_]; [lia|].
    rewrite calculateBusinessDays_through by lia.
    replace (Z.to_nat (today + 7 * Z.of_nat n - today)%Z) with (0 + S (7 * n - 1)) by lia.
    rewrite weekdaysThrough_split, weekdays_in_whole_weeks by exact Hn.
    cbn [weekdaysThrough].
    replace (today + Z.of_nat 0)%Z with today by lia.
    destruct (Fib.isWeekend today); lia. }
  split; [exact E|].
  rewrite signedDiffDays_swap, E. reflexivity.
Qed.

Lemma business_day_distance_over_whole_weeks_witness :
  let friday := daysFromCivil 2024 6 14 in
  0 < 2 /\ Fib.signedDiffDays friday (friday + 7 * Z.of_nat 2)%Z = 11%Z.
Proof.
  intro friday. assert (H : 0 < 2) by lia.
  destruct (business_day_distance_over_whole_weeks friday 2 H) as [E _].
  split; [exact H|]. rewrite E. vm_compute. reflexivity.
Defined.

(** ** Time zones *)

(** X9.  Linear variant on a host at a fixed offset from UTC.  The date
    string denotes midnight UTC and today is local midnight, so the distance
    of a real calendar date is the difference of the day numbers at and west
    of UTC, and one more than that east of UTC: there today's own date has
    distance 1. *)
Theorem linear_distance_depends_on_the_utc_offset :
  forall (H : Host) (offset todayDay : Z) (tok : text),
    realCalendarDate (yearOf tok) (monthOf tok) (dayOf tok) = true ->
    (- msPerDay < offset < msPerDay)%Z ->
    Linear.diffDaysOf (newDate H tok) (localMidnight offset todayDay)
    = Num (daysFromCivil (yearOf tok) (monthOf tok) (dayOf tok) - todayDay
           + (if (0 <? offset)%Z then 1 else 0))%Z.
Proof.
  intros H off T tok Hreal Hoff. unfold newDate. rewrite Hreal.
  unfold Linear.diffDaysOf, utcMidnight, localMidnight. f_equal.
  set (D := daysFromCivil (yearOf tok) (monthOf tok) (dayOf tok)).
  pose proof (ceilDiv_spec (msPerDay * D - (msPerDay * T - off)) msPerDay eq_refl) as Hc.
  set (c := ceilDiv (msPerDay * D - (msPerDay * T - off)) msPerDay) in *.
  change msPerDay with 86400000%Z in *.
  destruct (Z.ltb_spec 0 off); lia.
Qed.

Lemma linear_distance_depends_on_the_utc_offset_witness :
  let tok := T "2024-06-15" in
  let todayDay := daysFromCivil 2024 6 15 in
  realCalendarDate (yearOf tok) (monthOf tok) (dayOf tok) = true
  /\ (- msPerDay < 9 * 3600000 < msPerDay)%Z
  /\ Linear.diffDaysOf (newDate strictUTC tok) (localMidnight (9 * 3600000) todayDay)
     = Num 1.
Proof.
  intros tok todayDay.
  assert (Hr : realCalendarDate (yearOf tok) (monthOf tok) (dayOf tok) = true)
    by (vm_compute; reflexivity).
  assert (Ho : (- msPerDay < 9 * 3600000 < msPerDay)%Z) by (vm_compute; split; reflexivity).
  split; [exact Hr|]. split; [exact Ho|].
  rewrite (linear_distance_depends_on_the_utc_offset strictUTC (9 * 3600000) todayDay tok Hr Ho).
  vm_compute. reflexivity.
Defined.

(** X10.  Fibonacci variant on a host at a fixed offset from UTC.  For a
    validated token, truncating the UTC midnight of the date string to local
    midnight gives the day written in the string at and east of UTC, and the
    day before it west of UTC. *)
Theorem fibonacci_date_depends_on_the_utc_offset :
  forall (offset : Z) (tok : text),
    Fib.isValidDate tok = true ->
    (- msPerDay < offset < msPerDay)%Z ->
    Fib.dateOf (fixedOffsetHost offset) tok
    = (daysFromCivil (yearOf tok) (monthOf tok) (dayOf tok)
       + (if (offset <? 0)%Z then -1 else 0))%Z.
Proof.
  intros off tok _ Hoff. unfold Fib.dateOf, fixedOffsetHost, utcMidnight. cbn [localDay].
  set (D := daysFromCivil (yearOf tok) (monthOf tok) (dayOf tok)).
  change msPerDay with 86400000%Z in *.
  pose proof (Z.div_mod (86400000 * D + off) 86400000 ltac:(lia)) as Hdm.
  pose proof (Z.mod_pos_bound (86400000 * D + off) 86400000 ltac:(lia)) as Hm.
  destruct (Z.ltb_spec off 0); lia.
Qed.

Lemma fibonacci_date_depends_on_the_utc_offset_witness :
  Fib.isValidDate (T "2024-06-15") = true
  /\ (- msPerDay < - (5 * 3600000) < msPerDay)%Z
  /\ Fib.dateOf (fixedOffsetHost (- (5 * 3600000))) (T "2024-06-15")
     = daysFromCivil 2024 6 14.
Proof.
  assert (Hv : Fib.isValidDate (T "2024-06-15") = true) by (vm_compute; reflexivity).
  assert (Ho : (- msPerDay < - (5 * 3600000) < msPerDay)%Z) by (vm_compute; split; reflexivity).
  split; [exact Hv|]. split; [exact Ho|].
  rewrite (fibonacci_date_depends_on_the_utc_offset (- (5 * 3600000)) (T "2024-06-15") Hv Ho).
  vm_compute. reflexivity.
Defined.

(** ** What an update cycle renders *)

Lemma rendered_setDecorations : forall h rs e h',
    JSMap.get Nat.eqb h' (rendered (setDecorations h rs e))
    = if Nat.eqb h' h then Some rs else JSMap.get Nat.eqb h' (rendered e).
Proof.
  intros h rs e h'. unfold setDecorations. cbn [rendered].
  destruct (Nat.eqb_spec h' h) as [->|Hne].
  - apply (JSMap_get_set_same _ _ Nat.eqb Nat.eqb_eq).
  - apply (JSMap_get_set_other _ _ Nat.eqb Nat.eqb_eq). exact Hne.
Qed.

Lemma clearing_fold_other : forall hs e h,
    ~ In h hs ->
    JSMap.get Nat.eqb h
      (rendered (fold_left (fun e' h0 => setDecorations h0 [] e') hs e))
    = JSMap.get Nat.eqb h (rendered e).
Proof.
  induction hs as [|h0 hs IH]; intros e h Hn; simpl.
  - reflexivity.
  - rewrite IH by (intro Hin; apply Hn; right; exact Hin).
    rewrite rendered_setDecorations.
    destruct (Nat.eqb_spec h h0) as [->|_]; [|reflexivity].
    exfalso. apply Hn. left. reflexivity.
Qed.

Lemma clearing_fold_in : forall hs e h,
    In h hs ->
    JSMap.get Nat.eqb h
      (rendered (fold_left (fun e' h0 => setDecorations h0 [] e') hs e))
    = Some [].
Proof.
  induction hs as [|h0 hs IH]; intros e h Hin; simpl.
  - contradiction.
  - destruct (in_dec Nat.eq_dec h hs) as [Hi|Hn].
    + apply IH. exact Hi.
    + rewrite clearing_fold_other by exact Hn.
      destruct Hin as [->|Hin]; [|contradiction].
      rewrite rendered_setDecorations, Nat.eqb_refl. reflexivity.
Qed.

Section RenderFacts.
Variable K : Type.
Variable K_eqb : K -> K -> bool.
Hypothesis K_eqb_eq : forall a b, K_eqb a b = true <-> a = b.
Variable K_le0 : K -> bool.
Variable calculateColor : K -> string.
Variable TEXT_COLOR : string.

Local Abbreviation lookup :=
  (getOrCreateDecorationType K_eqb K_le0 calculateColor TEXT_COLOR).
Local Abbreviation wf := (wellFormed K_le0).
Local Abbreviation applyG := (applyGroup K_eqb K_le0 calculateColor TEXT_COLOR).

Lemma clearDecorations_known : forall (s : State K) e h,
    h = pastDateDecorationType \/ In h (JSMap.values (futureDecorationTypes s)) ->
    JSMap.get Nat.eqb h (rendered (clearDecorations s e)) = Some [].
Proof.
  intros s e h Hh. unfold clearDecorations.
  destruct (in_dec Nat.eq_dec h (JSMap.values (futureDecorationTypes s))) as [Hi|Hn].
  - apply clearing_fold_in. exact Hi.
  - rewrite clearing_fold_other by exact Hn.
    destruct Hh as [->|Hh]; [|contradiction].
    rewrite rendered_setDecorations, Nat.eqb_refl. reflexivity.
Qed.

(** Everything a lookup does to the registry. *)
Lemma lookup_result : forall (s : State K) k,
    wf s ->
    wf (snd (lookup k s))
    /\ length (created s) <= length (created (snd (lookup k s)))
    /\ fst (lookup k s) < length (created (snd (lookup k s)))
    /\ ((K_le0 k = true /\ fst (lookup k s) = pastDateDecorationType)
        \/ (K_le0 k = false
            /\ JSMap.get K_eqb k (futureDecorationTypes (snd (lookup k s)))
               = Some (fst (lookup k s))))
    /\ (forall k' h', JSMap.get K_eqb k' (futureDecorationTypes s) = Some h' ->
                      JSMap.get K_eqb k' (futureDecorationTypes (snd (lookup k s)))
                      = Some h')
    /\ (forall k' h', JSMap.get K_eqb k' (futureDecorationTypes (snd (lookup k s)))
                      = Some h' ->
                      JSMap.get K_eqb k' (futureDecorationTypes s) = Some h'
                      \/ h' = length (created s)).
Proof.
  intros s k Hwf.
  assert (Hwf1 : wf (snd (lookup k s))) by (apply wellFormed_lookup; assumption).
  split; [exact Hwf1|].
  destruct Hwf as (Hc & Hlen & Hk & Hle & Hv & Hnv).
  destruct (K_le0 k) eqn:H0.
  - rewrite lookup_past by exact H0. cbn [fst snd].
    repeat split; try (unfold pastDateDecorationType; lia); auto.
  - destruct (JSMap.get K_eqb k (futureDecorationTypes s)) as [h|] eqn:Hg.
    + erewrite lookup_hit; [| exact H0 | exact Hg]. cbn [fst snd].
      assert (Hin : In h (JSMap.values (futureDecorationTypes s))).
      { apply (JSMap_get_In _ _ K_eqb K_eqb_eq) in Hg.
        change h with (snd (k, h)). apply in_map. exact Hg. }
      apply Hv in Hin. repeat split; try lia; auto.
    + erewrite lookup_miss; [| exact H0 | exact Hg].
      cbn [fst snd created futureDecorationTypes]. rewrite length_app. cbn [length].
      split; [lia|]. split; [lia|]. split; [|split].
      * right. split; [reflexivity|].
        rewrite <- (JSMap_set_absent _ _ K_eqb) by exact Hg.
        apply (JSMap_get_set_same _ _ K_eqb K_eqb_eq).
      * intros k' h' Hg'. apply get_app_Some. exact Hg'.
      * intros k' h' Hg'.
        rewrite <- (JSMap_set_absent _ _ K_eqb _ (length (created s))) in Hg' by exact Hg.
        destruct (K_eqb k' k) eqn:E.
        -- apply K_eqb_eq in E. subst k'.
           rewrite (JSMap_get_set_same _ _ K_eqb K_eqb_eq) in Hg'.
           right. inversion Hg'. reflexivity.
        -- left. rewrite (JSMap_get_set_other _ _ K_eqb K_eqb_eq) in Hg'; [exact Hg'|].
           intro; subst. rewrite (eqb_refl _ K_eqb K_eqb_eq) in E. discriminate.
Qed.

(** A handle that none of the groups is looked up to keeps what it renders. *)
Lemma applyGroups_leave_alone : forall groups (s : State K) e h,
    wf s ->
    h < length (created s) ->
    (forall g, In g groups -> K_le0 (fst g) = true -> h <> pastDateDecorationType) ->
    (forall g, In g groups -> K_le0 (fst g) = false ->
               JSMap.get K_eqb (fst g) (futureDecorationTypes s) <> Some h) ->
    JSMap.get Nat.eqb h (rendered (snd (fold_left applyG groups (s, e))))
    = JSMap.get Nat.eqb h (rendered e).
Proof.
  induction groups as [|g groups IH]; intros s e h Hwf Hlt Hp Hf.
  - reflexivity.
  - cbn [fold_left]. unfold applyGroup at 2.
    destruct (lookup_result s (fst g) Hwf) as (Hwf1 & Hmono & _ & Hcase & _ & Hback).
    destruct (lookup (fst g) s) as [hg s1] eqn:E. cbn [fst snd] in *.
    assert (Hne : h <> hg).
    { destruct Hcase as [[H0 Hh] | [H0 Hg]].
      - subst hg. apply (Hp g); [left; reflexivity | exact H0].
      - intro Heq. subst hg. destruct (Hback _ _ Hg) as [Hold | Hnew].
        + apply (Hf g); [left; reflexivity | exact H0 | exact Hold].
        + lia. }
    rewrite IH.
    + rewrite rendered_setDecorations.
      destruct (Nat.eqb_spec h hg); [contradiction | reflexivity].
    + exact Hwf1.
    + lia.
    + intros g' Hin. apply Hp. right. exact Hin.
    + intros g' Hin H0 Hg'. destruct (Hback _ _ Hg') as [Hold | Hnew].
      * apply (Hf g'); [right; exact Hin | exact H0 | exact Hold].
      * lia.
Qed.

(** The registry part of the state after the [forEach] loop. *)
Lemma applyGroups_registry : forall groups (s : State K) e,
    wf s ->
    wf (fst (fold_left applyG groups (s, e)))
    /\ length (created s) <= length (created (fst (fold_left applyG groups (s, e))))
    /\ (forall k h, JSMap.get K_eqb k (futureDecorationTypes s) = Some h ->
                    JSMap.get K_eqb k
                      (futureDecorationTypes (fst (fold_left applyG groups (s, e))))
                    = Some h)
    /\ (forall g, In g groups -> K_le0 (fst g) = false ->
                  JSMap.get K_eqb (fst g)
                    (futureDecorationTypes (fst (fold_left applyG groups (s, e))))
                  <> None).
Proof.
  induction groups as [|g groups IH]; intros s e Hwf.
  - cbn [fold_left fst]. split; [exact Hwf|]. split; [lia|]. split; [auto|].
    intros g [].
  - cbn [fold_left]. unfold applyGroup at 2 4 6 8.
    destruct (lookup_result s (fst g) Hwf) as (Hwf1 & Hmono & _ & Hcase & Hkeep & _).
    destruct (lookup (fst g) s) as [hg s1] eqn:E. cbn [fst snd] in *.
    destruct (IH s1 (setDecorations hg (snd g) e) Hwf1) as (Hwf2 & Hmono2 & Hkeep2 & Hall2).
    split; [exact Hwf2|]. split; [lia|]. split.
    + intros k h Hg. apply Hkeep2, Hkeep. exact Hg.
    + intros g' [->|Hin] H0.
      * destruct Hcase as [[Hc _] | [_ Hg]]; [congruence|].
        rewrite (Hkeep2 _ _ Hg). discriminate.
      * apply Hall2; assumption.
Qed.

(** The group that is applied last to a handle is the one rendered. *)
Lemma applyGroups_render_group : forall g1 k rs g2 (s : State K) e,
    wf s ->
    (K_le0 k = true -> forall g, In g g2 -> K_le0 (fst g) = false) ->
    (K_le0 k = false -> forall g, In g g2 -> fst g <> k) ->
    let final := fold_left applyG (g1 ++ (k, rs) :: g2) (s, e) in
    JSMap.get Nat.eqb (fst (lookup k (fst final))) (rendered (snd final)) = Some rs.
Proof.
  intros g1 k rs g2 s e Hwf Hpast Hfut final. subst final.
  rewrite fold_left_app. cbn [fold_left].
  destruct (applyGroups_registry g1 s e Hwf) as (Hwf1 & _).
  destruct (fold_left applyG g1 (s, e)) as [s1 e1]. cbn [fst] in Hwf1.
  unfold applyGroup at 2 4. cbn [fst snd].
  destruct (lookup_result s1 k Hwf1) as (Hwf2 & _ & Hlt & Hcase & _ & _).
  destruct (lookup k s1) as [h s2] eqn:E. cbn [fst snd] in *.
  destruct (applyGroups_registry g2 s2 (setDecorations h rs e1) Hwf2)
    as (Hwf3 & _ & Hkeep3 & _).
  assert (Hh : fst (lookup k (fst (fold_left applyG g2 (s2, setDecorations h rs e1)))) = h).
  { destruct Hcase as [[H0 Hp] | [H0 Hg]].
    - rewrite lookup_past by exact H0. symmetry. exact Hp.
    - erewrite lookup_hit; [reflexivity | exact H0 | apply Hkeep3; exact Hg]. }
  rewrite Hh. rewrite applyGroups_leave_alone.
  - rewrite rendered_setDecorations, Nat.eqb_refl. reflexivity.
  - exact Hwf2.
  - exact Hlt.
  - intros g Hin H0 Heq. destruct Hcase as [[Hk0 _] | [Hk0 Hg]].
    + rewrite (Hpast Hk0 g Hin) in H0. discriminate.
    + subst h. destruct Hwf2 as (_ & _ & _ & _ & Hv & _).
      apply (JSMap_get_In _ _ K_eqb K_eqb_eq) in Hg.
      assert (Hin' : In pastDateDecorationType (JSMap.values (futureDecorationTypes s2))).
      { change pastDateDecorationType with (snd (k, pastDateDecorationType)).
        apply in_map. exact Hg. }
      apply Hv in Hin'. unfold pastDateDecorationType in Hin'. lia.
  - intros g Hin H0 Hg'. destruct Hcase as [[Hk0 Hp] | [Hk0 Hg]].
    + subst h. destruct Hwf2 as (_ & _ & _ & _ & Hv & _).
      apply (JSMap_get_In _ _ K_eqb K_eqb_eq) in Hg'.
      assert (Hin' : In pastDateDecorationType (JSMap.values (futureDecorationTypes s2))).
      { change pastDateDecorationType with (snd (fst g, pastDateDecorationType)).
        apply in_map. exact Hg'. }
      apply Hv in Hin'. unfold pastDateDecorationType in Hin'. lia.
    + apply (Hfut Hk0 g Hin).
      destruct Hwf2 as (_ & _ & _ & _ & _ & Hnv).
      apply (JSMap_get_In _ _ K_eqb K_eqb_eq) in Hg.
      apply (JSMap_get_In _ _ K_eqb K_eqb_eq) in Hg'.
      apply (NoDup_values_key K (futureDecorationTypes s2) (fst g) k h Hnv Hg' Hg).
Qed.
End RenderFacts.

Section RenderCycle.
Variable K : Type.
Variable K_eqb : K -> K -> bool.
Hypothesis K_eqb_eq : forall a b, K_eqb a b = true <-> a = b.
Variable K_le0 : K -> bool.
Variable calculateColor : K -> string.
Variable TEXT_COLOR : string.

Local Abbreviation lookup :=
  (getOrCreateDecorationType K_eqb K_le0 calculateColor TEXT_COLOR).
Local Abbreviation wf := (wellFormed K_le0).
Local Abbreviation applyG := (applyGroup K_eqb K_le0 calculateColor TEXT_COLOR).
Local Abbreviation cycle := (render K_eqb K_le0 calculateColor TEXT_COLOR).

Lemma render_unfold : forall groups e (s : State K),
    cycle groups e s
    = withEditor (snd (fold_left applyG groups (s, clearDecorations s e)))
                 (fst (fold_left applyG groups (s, clearDecorations s e))).
Proof.
  intros groups e s. unfold render.
  destruct (fold_left applyG groups (s, clearDecorations s e)) as [s1 e1]. reflexivity.
Qed.

(** A known decoration type that no group of the cycle is applied to renders
    nothing after the cycle. *)
Lemma render_clears_registered : forall groups e (s : State K) k h,
    wf s ->
    JSMap.get K_eqb k (futureDecorationTypes s) = Some h ->
    JSMap.get K_eqb k groups = None ->
    shownRanges (cycle groups e s) h = Some [].
Proof.
  intros groups e s k h Hwf Hg Hnone. rewrite render_unfold.
  unfold shownRanges. cbn [activeEditor withEditor].
  pose proof Hwf as (_ & _ & _ & _ & Hv & Hnv).
  pose proof (JSMap_get_In _ _ K_eqb K_eqb_eq _ _ _ Hg) as Hin.
  assert (Hval : In h (JSMap.values (futureDecorationTypes s))).
  { change h with (snd (k, h)). apply in_map. exact Hin. }
  rewrite (applyGroups_leave_alone K K_eqb K_eqb_eq).
  - apply clearDecorations_known. right. exact Hval.
  - exact Hwf.
  - apply Hv in Hval. lia.
  - intros g _ _ Heq. apply Hv in Hval. unfold pastDateDecorationType in Heq. lia.
  - intros g Hgin _ Hg'.
    apply (JSMap_get_In _ _ K_eqb K_eqb_eq) in Hg'.
    assert (fst g = k) by (apply (NoDup_values_key K _ _ _ h Hnv Hg' Hin)).
    apply (JSMap_get_None_keys _ _ K_eqb K_eqb_eq) in Hnone. apply Hnone.
    subst k. apply in_map. exact Hgin.
Qed.

Lemma render_clears_past : forall groups e (s : State K),
    wf s ->
    (forall g, In g groups -> K_le0 (fst g) = false) ->
    shownRanges (cycle groups e s) pastDateDecorationType = Some [].
Proof.
  intros groups e s Hwf Hno. rewrite render_unfold.
  unfold shownRanges. cbn [activeEditor withEditor].
  pose proof Hwf as (_ & Hlen & _ & _ & Hv & _).
  rewrite (applyGroups_leave_alone K K_eqb K_eqb_eq).
  - apply clearDecorations_known. left. reflexivity.
  - exact Hwf.
  - unfold pastDateDecorationType. lia.
  - intros g Hin H0. rewrite (Hno g Hin) in H0. discriminate.
  - intros g _ _ Hg'.
    apply (JSMap_get_In _ _ K_eqb K_eqb_eq) in Hg'.
    assert (Hval : In pastDateDecorationType (JSMap.values (futureDecorationTypes s))).
    { change pastDateDecorationType with (snd (fst g, pastDateDecorationType)).
      apply in_map. exact Hg'. }
    apply Hv in Hval. unfold pastDateDecorationType in Hval. lia.
Qed.

(** A group is rendered on its decoration type when no later group of the
    cycle is applied to the same type. *)
Lemma render_shows_group : forall g1 k rs g2 e (s : State K),
    wf s ->
    (K_le0 k = true -> forall g, In g g2 -> K_le0 (fst g) = false) ->
    (K_le0 k = false -> forall g, In g g2 -> fst g <> k) ->
    shownRanges (cycle (g1 ++ (k, rs) :: g2) e s)
                (fst (lookup k (cycle (g1 ++ (k, rs) :: g2) e s)))
    = Some rs.
Proof.
  intros g1 k rs g2 e s Hwf Hp Hf. rewrite render_unfold.
  unfold shownRanges. cbn [activeEditor withEditor].
  pose proof (applyGroups_render_group K K_eqb K_eqb_eq K_le0 calculateColor TEXT_COLOR
                g1 k rs g2 s (clearDecorations s e) Hwf Hp Hf) as Hr.
  cbv zeta in Hr. rewrite <- Hr. f_equal.
  set (final := fold_left applyG (g1 ++ (k, rs) :: g2) (s, clearDecorations s e)).
  destruct (K_le0 k) eqn:H0.
  - rewrite !lookup_past by exact H0. reflexivity.
  - destruct (JSMap.get K_eqb k (futureDecorationTypes (fst final))) as [h|] eqn:Hg.
    + erewrite lookup_hit; [| exact H0 | exact Hg].
      erewrite lookup_hit; [reflexivity | exact H0 | exact Hg].
    + erewrite lookup_miss; [| exact H0 | exact Hg].
      erewrite lookup_miss; [reflexivity | exact H0 | exact Hg].
Qed.

Lemma applyGroups_all_hit : forall groups (s : State K) e,
    (forall g, In g groups -> K_le0 (fst g) = false ->
               JSMap.get K_eqb (fst g) (futureDecorationTypes s) <> None) ->
    fst (fold_left applyG groups (s, e)) = s.
Proof.
  induction groups as [|g groups IH]; intros s e Hall.
  - reflexivity.
  - cbn [fold_left]. unfold applyGroup at 2.
    assert (E : lookup (fst g) s = (fst (lookup (fst g) s), s)).
    { destruct (K_le0 (fst g)) eqn:H0.
      - rewrite lookup_past by exact H0. reflexivity.
      - destruct (JSMap.get K_eqb (fst g) (futureDecorationTypes s)) as [h|] eqn:Hg.
        + erewrite lookup_hit; [reflexivity | exact H0 | exact Hg].
        + exfalso. apply (Hall g); [left; reflexivity | exact H0 | exact Hg]. }
    rewrite E. apply IH. intros g' Hin. apply Hall. right. exact Hin.
Qed.

(** Running the same cycle again allocates nothing and leaves the registry
    as it is. *)
Lemma render_twice_registry : forall groups e e' (s : State K),
    wf s ->
    let s1 := cycle groups e s in
    let s2 := cycle groups e' s1 in
    created s2 = created s1
    /\ futureDecorationTypes s2 = futureDecorationTypes s1
    /\ disposed s2 = disposed s1
    /\ subscriptions s2 = subscriptions s1.
Proof.
  intros groups e e' s Hwf s1 s2. subst s2.
  rewrite (render_unfold groups e' s1).
  assert (Hall : forall g, In g groups -> K_le0 (fst g) = false ->
                           JSMap.get K_eqb (fst g) (futureDecorationTypes s1) <> None).
  { subst s1. rewrite render_unfold. cbn [futureDecorationTypes withEditor].
    apply (applyGroups_registry K K_eqb K_eqb_eq). exact Hwf. }
  rewrite (applyGroups_all_hit groups s1 (clearDecorations s1 e') Hall).
  cbn. repeat split; reflexivity.
Qed.

Lemma applyGroups_keeps_in : forall (P : State K -> Prop) groups,
    (forall g s, In g groups -> P s -> P (snd (lookup (fst g) s))) ->
    forall s e, P s -> P (fst (fold_left applyG groups (s, e))).
Proof.
  intros P groups. induction groups as [|g groups IH]; intros HP s e Hs.
  - exact Hs.
  - cbn [fold_left]. unfold applyGroup at 2.
    pose proof (HP g s (or_introl eq_refl) Hs) as Hs'.
    destruct (lookup (fst g) s) as [h s']. apply IH.
    + intros g' s0 Hin. apply HP. right. exact Hin.
    + exact Hs'.
Qed.

(** The keys a cycle adds to the registry are keys of its groups. *)
Lemma render_keys : forall (allowed : K -> Prop) groups e (s : State K),
    (forall g, In g groups -> K_le0 (fst g) = false -> allowed (fst g)) ->
    (forall k, In k (JSMap.keys (futureDecorationTypes s)) -> allowed k) ->
    forall k, In k (JSMap.keys (futureDecorationTypes (cycle groups e s))) -> allowed k.
Proof.
  intros allowed groups e s Hg Hs. rewrite render_unfold.
  cbn [futureDecorationTypes withEditor].
  apply (applyGroups_keeps_in
           (fun s => forall k, In k (JSMap.keys (futureDecorationTypes s)) -> allowed k));
    [|exact Hs].
  intros g s0 Hin Hs0 k Hk. destruct (K_le0 (fst g)) eqn:H0.
  - rewrite lookup_past in Hk by exact H0. apply Hs0. exact Hk.
  - destruct (JSMap.get K_eqb (fst g) (futureDecorationTypes s0)) as [h|] eqn:Hget.
    + erewrite lookup_hit in Hk; [| exact H0 | exact Hget]. apply Hs0. exact Hk.
    + erewrite lookup_miss in Hk; [| exact H0 | exact Hget].
      cbn [snd futureDecorationTypes] in Hk. unfold JSMap.keys in Hk.
      rewrite map_app in Hk. apply in_app_iff in Hk.
      destruct Hk as [Hk | [Hk | []]].
      * apply Hs0. exact Hk.
      * cbn in Hk. subst k. apply Hg; assumption.
Qed.
End RenderCycle.

Section LifetimeInvariants.
Variable K : Type.
Variable K_eqb : K -> K -> bool.
Hypothesis K_eqb_eq : forall a b, K_eqb a b = true <-> a = b.
Variable K_le0 : K -> bool.
Variable calculateColor : K -> string.
Variables PAST_COLOR TEXT_COLOR : string.

Local Abbreviation lookup :=
  (getOrCreateDecorationType K_eqb K_le0 calculateColor TEXT_COLOR).
Local Abbreviation wf := (wellFormed K_le0).
Local Abbreviation life :=
  (lifetime K_eqb K_le0 calculateColor TEXT_COLOR PAST_COLOR).

(** The creation log holds, at the index of every registered handle, the
    options it was created with. *)
Lemma lifetime_bindings : forall s : State K,
    life s ->
    nth_error (created s) pastDateDecorationType
    = Some (pastDateDecorationType,
            {| backgroundColor := PAST_COLOR; color := TEXT_COLOR |})
    /\ forall k h, In (k, h) (futureDecorationTypes s) ->
                   nth_error (created s) h
                   = Some (h, {| backgroundColor := calculateColor k;
                                 color := TEXT_COLOR |}).
Proof.
  intros s Hl. induction Hl as [|s s' Hl IH Hstep|s Hl IH].
  - split; [reflexivity|]. intros k h [].
  - revert IH. apply (step_keeps K K_eqb K_le0 calculateColor TEXT_COLOR
                        (fun s => nth_error (created s) pastDateDecorationType
                                  = Some (pastDateDecorationType,
                                          {| backgroundColor := PAST_COLOR;
                                             color := TEXT_COLOR |})
                                  /\ forall k h, In (k, h) (futureDecorationTypes s) ->
                                       nth_error (created s) h
                                       = Some (h, {| backgroundColor := calculateColor k;
                                                     color := TEXT_COLOR |})));
      [| intros s0 e Hs; exact Hs | exact Hstep].
    intros k0 s0 [Hp Hb]. destruct (K_le0 k0) eqn:H0.
    + rewrite lookup_past by exact H0. split; assumption.
    + destruct (JSMap.get K_eqb k0 (futureDecorationTypes s0)) as [h0|] eqn:Hg.
      * erewrite lookup_hit; [| exact H0 | exact Hg]. split; assumption.
      * erewrite lookup_miss; [| exact H0 | exact Hg].
        cbn [snd created futureDecorationTypes]. split.
        -- rewrite nth_error_app1; [exact Hp|].
           apply nth_error_Some. rewrite Hp. discriminate.
        -- intros k h Hin. apply in_app_iff in Hin. destruct Hin as [Hin | [Hin | []]].
           ++ rewrite nth_error_app1; [apply Hb; exact Hin|].
              apply nth_error_Some. rewrite (Hb k h Hin). discriminate.
           ++ inversion Hin; subst. rewrite nth_error_app2 by lia.
              rewrite Nat.sub_diag. reflexivity.
  - destruct IH as [Hp _]. split; [exact Hp|]. intros k h [].
Qed.

(** A handle found in the registry has not been disposed. *)
Lemma lifetime_registry_not_disposed : forall s : State K,
    life s ->
    (forall h, In h (disposed s) -> h < length (created s))
    /\ (forall h, In h (JSMap.values (futureDecorationTypes s)) -> ~ In h (disposed s)).
Proof.
  intros s Hl. induction Hl as [|s s' Hl IH Hstep|s Hl IH].
  - split; [intros h [] | intros h []].
  - revert IH. apply (step_keeps K K_eqb K_le0 calculateColor TEXT_COLOR
                        (fun s => (forall h, In h (disposed s) -> h < length (created s))
                                  /\ (forall h, In h (JSMap.values (futureDecorationTypes s)) ->
                                                ~ In h (disposed s))));
      [| intros s0 e Hs; exact Hs | exact Hstep].
    intros k0 s0 [Hd Hv]. destruct (K_le0 k0) eqn:H0.
    + rewrite lookup_past by exact H0. split; assumption.
    + destruct (JSMap.get K_eqb k0 (futureDecorationTypes s0)) as [h0|] eqn:Hg.
      * erewrite lookup_hit; [| exact H0 | exact Hg]. split; assumption.
      * erewrite lookup_miss; [| exact H0 | exact Hg].
        cbn [snd created futureDecorationTypes disposed]. split.
        -- intros h Hin. rewrite length_app. cbn [length]. apply Hd in Hin. lia.
        -- intros h Hin Hdis. unfold JSMap.values in Hin. rewrite map_app in Hin.
           apply in_app_iff in Hin. destruct Hin as [Hin | [Hin | []]].
           ++ apply (Hv h Hin Hdis).
           ++ cbn in Hin. subst h. apply Hd in Hdis. lia.
  - apply lifetime_wellFormed in Hl; [|exact K_eqb_eq].
    destruct Hl as (_ & Hlen & _ & _ & Hval & _). destruct IH as [Hd _].
    split; [|intros h []].
    intros h Hin. cbn [deactivate disposed created] in *.
    apply in_app_iff in Hin. destruct Hin as [Hin | [Hin | Hin]].
    + apply Hd. exact Hin.
    + subst h. unfold pastDateDecorationType. lia.
    + apply Hval in Hin. lia.
Qed.
End LifetimeInvariants.

Lemma document_setDecorations : forall h rs e,
    document (setDecorations h rs e) = document e.
Proof. reflexivity. Qed.

Section Documents.
Variable K : Type.
Variable K_eqb : K -> K -> bool.
Variable K_le0 : K -> bool.
Variable calculateColor : K -> string.
Variable TEXT_COLOR : string.

Lemma document_clearDecorations : forall (s : State K) e,
    document (clearDecorations s e) = document e.
Proof.
  intros s e. unfold clearDecorations.
  assert (H : forall hs e0, document (fold_left (fun e' h => setDecorations h [] e') hs e0)
                            = document e0).
  { induction hs as [|h hs IH]; intro e0; simpl; [reflexivity|]. rewrite IH. reflexivity. }
  rewrite H. reflexivity.
Qed.

Lemma document_applyGroups : forall groups (s : State K) e,
    document (snd (fold_left (applyGroup K_eqb K_le0 calculateColor TEXT_COLOR)
                             groups (s, e)))
    = document e.
Proof.
  induction groups as [|g groups IH]; intros s e.
  - reflexivity.
  - cbn [fold_left]. unfold applyGroup at 2.
    destruct (getOrCreateDecorationType K_eqb K_le0 calculateColor TEXT_COLOR (fst g) s)
      as [h s1].
    rewrite IH. reflexivity.
Qed.

(** After a cycle the active editor still shows the same document. *)
Lemma render_activeEditor : forall groups e (s : State K),
    exists e1,
      activeEditor (render K_eqb K_le0 calculateColor TEXT_COLOR groups e s) = Some e1
      /\ document e1 = document e.
Proof.
  intros groups e s. rewrite render_unfold. cbn [activeEditor withEditor].
  eexists. split; [reflexivity|].
  rewrite document_applyGroups. apply document_clearDecorations.
Qed.
End Documents.

(** ** Update cycles of the two variants *)

Lemma Fib_update_lifetime : forall H today s,
    Fib.lifetime s -> Fib.lifetime (Fib.updateDecorations H today s).
Proof.
  intros H today s Hl. destruct (Fib_update_step H today s) as [E|Hs].
  - rewrite E. exact Hl.
  - eapply life_step; [exact Hl | exact Hs].
Qed.

Lemma Linear_editor_lifetime : forall e s,
    Linear.lifetime s -> Linear.lifetime (setActiveEditor e s).
Proof. intros e s Hl. eapply life_step; [exact Hl | apply step_editor]. Qed.

Lemma Fib_editor_lifetime : forall e s,
    Fib.lifetime s -> Fib.lifetime (setActiveEditor e s).
Proof. intros e s Hl. eapply life_step; [exact Hl | apply step_editor]. Qed.

Lemma Linear_collect_NoDup : forall H today t,
    NoDup (JSMap.keys (Linear.collect H today t)).
Proof.
  intros H today t. unfold Linear.collect.
  rewrite (fold_left_pointwise _ _ (Linear.visit H today t)
             (fun m i => if (fun _ : nat => true) i
                         then pushDecoration jsnum_eqb (Linear.diffDaysAt H today t i)
                                             (Linear.rangeOf t i) m
                         else m))
    by reflexivity.
  apply (NoDup_keys_fold jsnum nat jsnum_eqb jsnum_eqb_eq (fun _ => true)
           (Linear.diffDaysAt H today t) (Linear.rangeOf t)).
  constructor.
Qed.

Lemma Fib_collect_category : forall H today t c rs,
    In (c, rs) (Fib.collect H today t) ->
    c = 0%Z \/ In c Fib.FIBONACCI_BOUNDARIES.
Proof.
  intros H today t c rs Hin.
  apply (JSMap_In_get _ _ Z.eqb Z.eqb_eq) in Hin; [|apply Fib_collect_NoDup].
  rewrite Fib_collect_get in Hin.
  destruct (filter _ (allMatches whitespaceMatchAt t)) as [|i l] eqn:E; [discriminate|].
  assert (Hi : In i (filter (fun i => Fib.isValidDate (tokenAt t i)
                                      && Z.eqb c (Fib.categoryAt H today t i))
                            (allMatches whitespaceMatchAt t)))
    by (rewrite E; left; reflexivity).
  apply filter_In in Hi. destruct Hi as [_ Hi].
  apply andb_true_iff in Hi. destruct Hi as [_ Hi]. apply Z.eqb_eq in Hi.
  rewrite Hi. apply getFibonacciCategory_produced.
Qed.

Lemma NoDup_keys_split : forall (K V : Type) (g1 g2 : list (K * V)) k v,
    NoDup (JSMap.keys (g1 ++ (k, v) :: g2)) ->
    forall g, In g g2 -> fst g <> k.
Proof.
  intros K V g1 g2 k v Hnd g Hin Heq.
  unfold JSMap.keys in Hnd. rewrite map_app in Hnd. cbn [map fst] in Hnd.
  apply NoDup_remove_2 in Hnd. apply Hnd. apply in_or_app. right.
  rewrite <- Heq. apply in_map. exact Hin.
Qed.

(** X11.  No stale highlighting.  After an update cycle, a decoration type
    that was registered before the cycle and whose key is not a key of this
    cycle's groups renders nothing in the active editor, and the past-date
    type renders nothing when no group has a key of 0 or less.  This holds
    at any time of the extension's life, in both variants. *)
Theorem stale_highlights_are_cleared :
  forall (sl : Linear.State) (sf : Fib.State) (H : Host),
    Linear.lifetime sl -> Fib.lifetime sf ->
    (forall today e k h,
        activeEditor sl = Some e ->
        JSMap.get jsnum_eqb k (futureDecorationTypes sl) = Some h ->
        JSMap.get jsnum_eqb k (Linear.collect H today (document e)) = None ->
        shownRanges (Linear.updateDecorations H today sl) h = Some [])
    /\ (forall today e,
           activeEditor sl = Some e ->
           (forall g, In g (Linear.collect H today (document e)) ->
                      jsnum_le0 (fst g) = false) ->
           shownRanges (Linear.updateDecorations H today sl) pastDateDecorationType
           = Some [])
    /\ (forall today e c h,
           activeEditor sf = Some e ->
           JSMap.get Z.eqb c (futureDecorationTypes sf) = Some h ->
           JSMap.get Z.eqb c (Fib.collect H today (document e)) = None ->
           shownRanges (Fib.updateDecorations H today sf) h = Some [])
    /\ (forall today e,
           activeEditor sf = Some e ->
           (forall g, In g (Fib.collect H today (document e)) ->
                      (fst g <=? 0)%Z = false) ->
           shownRanges (Fib.updateDecorations H today sf) pastDateDecorationType
           = Some []).
Proof.
  intros sl sf H Hl Hf.
  apply lifetime_wellFormed in Hl; [|exact jsnum_eqb_eq].
  apply lifetime_wellFormed in Hf; [|exact Z.eqb_eq].
  split; [|split; [|split]].
  - intros today e k h He Hg Hn. unfold Linear.updateDecorations. rewrite He.
    apply (render_clears_registered jsnum jsnum_eqb jsnum_eqb_eq) with (k := k); assumption.
  - intros today e He Hno. unfold Linear.updateDecorations. rewrite He.
    apply (render_clears_past jsnum jsnum_eqb jsnum_eqb_eq); assumption.
  - intros today e c h He Hg Hn. unfold Fib.updateDecorations. rewrite He.
    apply (render_clears_registered Z Z.eqb Z.eqb_eq) with (k := c); assumption.
  - intros today e He Hno. unfold Fib.updateDecorations. rewrite He.
    apply (render_clears_past Z Z.eqb Z.eqb_eq); assumption.
Qed.

Lemma stale_highlights_are_cleared_witness :
  let before := {| document := T "2024-08-05 2024-06-14"; rendered := [] |} in
  let edited := {| document := T "2024-08-05 was moved";
                   rendered := [(0, [(11, 21)]); (1, [(0, 10)])] |} in
  let sl := setActiveEditor (Some edited)
              (Linear.updateDecorations strictUTC (msPerDay * daysFromCivil 2024 6 15)%Z
                 (setActiveEditor (Some before) Linear.moduleLoad)) in
  let sf := setActiveEditor (Some edited)
              (Fib.updateDecorations strictUTC (daysFromCivil 2024 6 15)
                 (setActiveEditor (Some before) Fib.moduleLoad)) in
  Linear.lifetime sl /\ Fib.lifetime sf
  /\ shownRanges sl 0 = Some [(11, 21)]
  /\ shownRanges (Linear.updateDecorations strictUTC
                    (msPerDay * daysFromCivil 2024 7 1)%Z sl) 0 = Some []
  /\ shownRanges sf 1 = Some [(0, 10)]
  /\ shownRanges (Fib.updateDecorations strictUTC (daysFromCivil 2024 7 1) sf) 1
     = Some [].
Proof.
  intros before edited sl sf.
  assert (Hl : Linear.lifetime sl)
    by (apply Linear_editor_lifetime, Linear_update_lifetime, Linear_editor_lifetime;
        constructor).
  assert (Hf : Fib.lifetime sf)
    by (apply Fib_editor_lifetime, Fib_update_lifetime, Fib_editor_lifetime;
        constructor).
  destruct (stale_highlights_are_cleared sl sf strictUTC Hl Hf) as (_ & Hp & Hc & _).
  split; [exact Hl|]. split; [exact Hf|].
  split; [vm_compute; reflexivity|]. split.
  - apply (Hp _ edited); [reflexivity|].
    intros g Hin. vm_compute in Hin. destruct Hin as [<- | []]. reflexivity.
  - split; [vm_compute; reflexivity|].
    apply (Hc _ edited 34%Z 1); vm_compute; reflexivity.
Defined.

(** X12.  What an update cycle renders.  In the Fibonacci variant every
    group of [decorationsMap] is rendered, with exactly its ranges, on the
    decoration type of its category.  In the linear variant this holds for
    every group whose key is not 0 or less; of the groups with a key of 0 or
    less only the last one is rendered, on the past-date type. *)
Theorem every_group_is_rendered_on_its_handle :
  forall (sl : Linear.State) (sf : Fib.State) (H : Host),
    Linear.lifetime sl -> Fib.lifetime sf ->
    (forall today e c rs,
        activeEditor sf = Some e ->
        In (c, rs) (Fib.collect H today (document e)) ->
        shownRanges (Fib.updateDecorations H today sf)
                    (fst (Fib.getOrCreateDecorationType c
                            (Fib.updateDecorations H today sf)))
        = Some rs)
    /\ (forall today e k rs,
           activeEditor sl = Some e ->
           In (k, rs) (Linear.collect H today (document e)) ->
           jsnum_le0 k = false ->
           shownRanges (Linear.updateDecorations H today sl)
                       (fst (Linear.getOrCreateDecorationType k
                               (Linear.updateDecorations H today sl)))
           = Some rs)
    /\ (forall today e g1 k rs g2,
           activeEditor sl = Some e ->
           Linear.collect H today (document e) = g1 ++ (k, rs) :: g2 ->
           jsnum_le0 k = true ->
           (forall g, In g g2 -> jsnum_le0 (fst g) = false) ->
           shownRanges (Linear.updateDecorations H today sl) pastDateDecorationType
           = Some rs).
Proof.
  intros sl sf H Hl Hf.
  apply lifetime_wellFormed in Hl; [|exact jsnum_eqb_eq].
  apply lifetime_wellFormed in Hf; [|exact Z.eqb_eq].
  split; [|split].
  - intros today e c rs He Hin. unfold Fib.updateDecorations. rewrite He.
    pose proof (Fib_collect_NoDup H today (document e)) as Hnd.
    assert (Hcat : forall g, In g (Fib.collect H today (document e)) ->
                             (0 <= fst g)%Z).
    { intros [c' rs'] Hg. apply Fib_collect_category in Hg. cbn [fst].
      destruct Hg as [-> | Hg]; [lia|]. apply boundaries_range in Hg. lia. }
    destruct (in_split _ _ Hin) as (g1 & g2 & Hsplit).
    rewrite Hsplit in Hnd, Hcat |- *.
    apply (render_shows_group Z Z.eqb Z.eqb_eq); [exact Hf | |].
    + intros H0 g Hg. apply Z.leb_le in H0. apply Z.leb_gt.
      pose proof (NoDup_keys_split _ _ _ _ _ _ Hnd g Hg) as Hne.
      pose proof (Hcat g ltac:(apply in_or_app; right; right; exact Hg)) as Hge.
      pose proof (Hcat (c, rs) ltac:(apply in_or_app; right; left; reflexivity)) as Hc0.
      cbn [fst] in Hc0. lia.
    + intros _ g Hg. apply (NoDup_keys_split _ _ _ _ _ _ Hnd g Hg).
  - intros today e k rs He Hin H0. unfold Linear.updateDecorations. rewrite He.
    pose proof (Linear_collect_NoDup H today (document e)) as Hnd.
    destruct (in_split _ _ Hin) as (g1 & g2 & Hsplit).
    rewrite Hsplit in Hnd |- *.
    apply (render_shows_group jsnum jsnum_eqb jsnum_eqb_eq); [exact Hl | |].
    + intro Hc. congruence.
    + intros _ g Hg. apply (NoDup_keys_split _ _ _ _ _ _ Hnd g Hg).
  - intros today e g1 k rs g2 He Hsplit H0 Hlast.
    unfold Linear.updateDecorations. rewrite He, Hsplit.
    pose proof (render_shows_group jsnum jsnum_eqb jsnum_eqb_eq jsnum_le0
                  Linear.calculateColor Linear.TEXT_COLOR g1 k rs g2 e sl Hl
                  (fun _ => Hlast)) as Hr.
    rewrite lookup_past in Hr by exact H0. apply Hr.
    intro Hc. congruence.
Qed.

Lemma every_group_is_rendered_on_its_handle_witness :
  let e := {| document := T "2024-06-14 2024-06-13 2024-08-05"; rendered := [] |} in
  let todayDay := daysFromCivil 2024 6 15 in
  let sl := setActiveEditor (Some e) Linear.moduleLoad in
  let sf := setActiveEditor (Some e) Fib.moduleLoad in
  Linear.lifetime sl /\ Fib.lifetime sf
  /\ shownRanges (Fib.updateDecorations strictUTC todayDay sf) 0
     = Some [(0, 11); (10, 22)]
  /\ shownRanges (Linear.updateDecorations strictUTC (msPerDay * todayDay)%Z sl) 0
     = Some [(11, 21)].
Proof.
  intros e todayDay sl sf.
  assert (Hl : Linear.lifetime sl) by (apply Linear_editor_lifetime; constructor).
  assert (Hf : Fib.lifetime sf) by (apply Fib_editor_lifetime; constructor).
  destruct (every_group_is_rendered_on_its_handle sl sf strictUTC Hl Hf)
    as (Hfib & _ & Hpast).
  split; [exact Hl|]. split; [exact Hf|]. split.
  - apply (Hfib todayDay e 0%Z [(0, 11); (10, 22)]); [reflexivity|].
    vm_compute. left. reflexivity.
  - apply (Hpast (msPerDay * todayDay)%Z e [(Num (-1), [(0, 10)])] (Num (-2)) [(11, 21)]
                 [(Num 51, [(22, 32)])]).
    + reflexivity.
    + vm_compute. reflexivity.
    + reflexivity.
    + intros g [<- | []]. reflexivity.
Defined.

(** X13.  In the Fibonacci variant update cycles register only thresholds:
    whatever documents and dates they see, the registry never holds more than
    ten decoration types and the editor is never asked for more than eleven. *)
Theorem fibonacci_registry_is_bounded :
  forall s : Fib.State,
    Fib.cycles s ->
    (forall c, In c (JSMap.keys (futureDecorationTypes s)) ->
               In c Fib.FIBONACCI_BOUNDARIES)
    /\ length (futureDecorationTypes s) <= 10
    /\ length (created s) <= 11.
Proof.
  intros s Hc.
  assert (Hinv : Fib.reachable s
                 /\ forall c, In c (JSMap.keys (futureDecorationTypes s)) ->
                              In c Fib.FIBONACCI_BOUNDARIES).
  { induction Hc as [|e s Hc [Hr Hk]|H today s Hc [Hr Hk]].
    - split; [constructor | intros c []].
    - split; [apply Fib_editor_reachable; exact Hr | exact Hk].
    - split; [apply Fib_update_reachable; exact Hr|].
      unfold Fib.updateDecorations. destruct (activeEditor s) as [e|]; [|exact Hk].
      apply (render_keys Z Z.eqb (fun c => (c <=? 0)%Z) Fib.calculateColor Fib.TEXT_COLOR
               (fun c => In c Fib.FIBONACCI_BOUNDARIES)); [|exact Hk].
      intros [c rs] Hin H0. cbn [fst] in *. apply Fib_collect_category in Hin.
      destruct Hin as [-> | Hin]; [discriminate | exact Hin]. }
  destruct Hinv as [Hr Hk]. split; [exact Hk|].
  destruct (reachable_one_handle_per_key Z Z.eqb Z.eqb_eq _ _ _ _ s Hr) as (Hnd & _ & Hlen).
  assert (Hle : length (futureDecorationTypes s) <= 10).
  { pose proof (NoDup_incl_length Hnd Hk) as Hle.
    unfold JSMap.keys in Hle. rewrite length_map in Hle. exact Hle. }
  split; [exact Hle | lia].
Qed.

Lemma fibonacci_registry_is_bounded_witness :
  let e := {| document := T "2024-06-17 2024-06-18 2025-06-18 2026-06-18";
              rendered := [] |} in
  let s := Fib.updateDecorations strictUTC (daysFromCivil 2024 6 15)
             (setActiveEditor (Some e) Fib.moduleLoad) in
  Fib.cycles s
  /\ JSMap.keys (futureDecorationTypes s) = [1; 2; 89]%Z
  /\ length (created s) <= 11.
Proof.
  intros e s.
  assert (Hc : Fib.cycles s) by (apply Fib.cycles_update, Fib.cycles_editor; constructor).
  destruct (fibonacci_registry_is_bounded s Hc) as (_ & _ & Hb).
  split; [exact Hc|]. split; [vm_compute; reflexivity | exact Hb].
Defined.

(** X14.  A registered decoration type was created with the colour of its
    key (and the variant's text colour), and the past-date type with the
    past colour; this binding holds at any time of the extension's life. *)
Theorem registered_handles_keep_their_colour :
  forall (sl : Linear.State) (sf : Fib.State),
    Linear.lifetime sl -> Fib.lifetime sf ->
    (nth_error (created sl) pastDateDecorationType
     = Some (pastDateDecorationType,
             {| backgroundColor := "rgb(255, 0, 0)"; color := "white" |})
     /\ forall k h, In (k, h) (futureDecorationTypes sl) ->
                    nth_error (created sl) h
                    = Some (h, {| backgroundColor := Linear.calculateColor k;
                                  color := "white" |}))
    /\ (nth_error (created sf) pastDateDecorationType
        = Some (pastDateDecorationType,
                {| backgroundColor := "hsl(0, 100%, 50%)"; color := "black" |})
        /\ forall c h, In (c, h) (futureDecorationTypes sf) ->
                       nth_error (created sf) h
                       = Some (h, {| backgroundColor := Fib.calculateColor c;
                                     color := "black" |})).
Proof.
  intros sl sf Hl Hf. split.
  - exact (lifetime_bindings jsnum jsnum_eqb jsnum_le0 Linear.calculateColor
             Linear.PAST_COLOR Linear.TEXT_COLOR sl Hl).
  - exact (lifetime_bindings Z Z.eqb (fun c => (c <=? 0)%Z) Fib.calculateColor
             Fib.RED_HUE Fib.TEXT_COLOR sf Hf).
Qed.

Lemma registered_handles_keep_their_colour_witness :
  let e := {| document := T "2024-06-20 2024-08-05"; rendered := [] |} in
  let todayDay := daysFromCivil 2024 6 15 in
  let sl := Linear.updateDecorations strictUTC (msPerDay * todayDay)%Z
              (setActiveEditor (Some e) Linear.moduleLoad) in
  let sf := Fib.updateDecorations strictUTC todayDay
              (setActiveEditor (Some e) Fib.moduleLoad) in
  Linear.lifetime sl /\ Fib.lifetime sf
  /\ nth_error (created sl) 1
     = Some (1, {| backgroundColor := "rgb(179, 0, 77)"; color := "white" |})
  /\ nth_error (created sf) 1
     = Some (1, {| backgroundColor := "hsl(63, 100%, 50%)"; color := "black" |}).
Proof.
  intros e todayDay sl sf.
  assert (Hl : Linear.lifetime sl)
    by (apply Linear_update_lifetime, Linear_editor_lifetime; constructor).
  assert (Hf : Fib.lifetime sf)
    by (apply Fib_update_lifetime, Fib_editor_lifetime; constructor).
  destruct (registered_handles_keep_their_colour sl sf Hl Hf) as [[_ Bl] [_ Bf]].
  split; [exact Hl|]. split; [exact Hf|]. split.
  - rewrite (Bl (Num 5) 1); [vm_compute; reflexivity|]. vm_compute. left. reflexivity.
  - rewrite (Bf 3%Z 1); [vm_compute; reflexivity|]. vm_compute. left. reflexivity.
Defined.

(** X15.  [dispose] is only ever called on decoration types that were
    created, and a handle found in the registry has never been disposed:
    [deactivate] empties the registry, so an update cycle after it gets fresh
    decoration types for its future dates (only the past-date type is handed
    out again after its disposal). *)
Theorem registered_handles_are_never_disposed :
  forall (sl : Linear.State) (sf : Fib.State),
    Linear.lifetime sl -> Fib.lifetime sf ->
    ((forall h, In h (disposed sl) -> h < length (created sl))
     /\ (forall k h, In (k, h) (futureDecorationTypes sl) -> ~ In h (disposed sl)))
    /\ ((forall h, In h (disposed sf) -> h < length (created sf))
        /\ (forall c h, In (c, h) (futureDecorationTypes sf) -> ~ In h (disposed sf))).
Proof.
  intros sl sf Hl Hf. split.
  - destruct (lifetime_registry_not_disposed jsnum jsnum_eqb jsnum_eqb_eq jsnum_le0
                Linear.calculateColor Linear.PAST_COLOR Linear.TEXT_COLOR sl Hl)
      as [Hd Hv].
    split; [exact Hd|]. intros k h Hin. apply Hv.
    change h with (snd (k, h)). apply in_map. exact Hin.
  - destruct (lifetime_registry_not_disposed Z Z.eqb Z.eqb_eq (fun c => (c <=? 0)%Z)
                Fib.calculateColor Fib.RED_HUE Fib.TEXT_COLOR sf Hf)
      as [Hd Hv].
    split; [exact Hd|]. intros c h Hin. apply Hv.
    change h with (snd (c, h)). apply in_map. exact Hin.
Qed.

Lemma registered_handles_are_never_disposed_witness :
  let e := {| document := T "2024-08-05"; rendered := [] |} in
  let todayDay := daysFromCivil 2024 6 15 in
  let sl := Linear.updateDecorations strictUTC (msPerDay * todayDay)%Z
              (Linear.deactivate
                 (Linear.updateDecorations strictUTC (msPerDay * todayDay)%Z
                    (setActiveEditor (Some e) Linear.moduleLoad))) in
  let sf := Fib.updateDecorations strictUTC todayDay
              (Fib.deactivate
                 (Fib.updateDecorations strictUTC todayDay
                    (setActiveEditor (Some e) Fib.moduleLoad))) in
  Linear.lifetime sl /\ Fib.lifetime sf
  /\ disposed sl = [0; 1] /\ futureDecorationTypes sl = [(Num 51, 2)]
  /\ ~ In 2 (disposed sl)
  /\ disposed sf = [0; 1] /\ futureDecorationTypes sf = [(34%Z, 2)]
  /\ ~ In 2 (disposed sf).
Proof.
  intros e todayDay sl sf.
  assert (Hl : Linear.lifetime sl).
  { apply Linear_update_lifetime, life_deactivate, Linear_update_lifetime,
      Linear_editor_lifetime. constructor. }
  assert (Hf : Fib.lifetime sf).
  { apply Fib_update_lifetime, life_deactivate, Fib_update_lifetime,
      Fib_editor_lifetime. constructor. }
  destruct (registered_handles_are_never_disposed sl sf Hl Hf) as [[_ Nl] [_ Nf]].
  split; [exact Hl|]. split; [exact Hf|].
  split; [vm_compute; reflexivity|]. split; [vm_compute; reflexivity|].
  split; [apply (Nl (Num 51)); vm_compute; left; reflexivity|].
  split; [vm_compute; reflexivity|]. split; [vm_compute; reflexivity|].
  apply (Nf 34%Z). vm_compute. left. reflexivity.
Defined.

(** X16.  Running the update cycle a second time with the same host, the
    same day and the same document creates no decoration type and leaves the
    registry, the dispose log and the subscriptions as the first run left
    them. *)
Theorem repeating_an_update_allocates_nothing :
  forall (sl : Linear.State) (sf : Fib.State) (H : Host),
    Linear.lifetime sl -> Fib.lifetime sf ->
    (forall today,
        let s1 := Linear.updateDecorations H today sl in
        let s2 := Linear.updateDecorations H today s1 in
        created s2 = created s1
        /\ futureDecorationTypes s2 = futureDecorationTypes s1
        /\ disposed s2 = disposed s1
        /\ subscriptions s2 = subscriptions s1)
    /\ (forall today,
           let s1 := Fib.updateDecorations H today sf in
           let s2 := Fib.updateDecorations H today s1 in
           created s2 = created s1
           /\ futureDecorationTypes s2 = futureDecorationTypes s1
           /\ disposed s2 = disposed s1
           /\ subscriptions s2 = subscriptions s1).
Proof.
  intros sl sf H Hl Hf.
  apply lifetime_wellFormed in Hl; [|exact jsnum_eqb_eq].
  apply lifetime_wellFormed in Hf; [|exact Z.eqb_eq].
  split; intros today s1 s2; subst s2 s1.
  - destruct (activeEditor sl) as [e|] eqn:He.
    + assert (E1 : Linear.updateDecorations H today sl
                   = render jsnum_eqb jsnum_le0 Linear.calculateColor Linear.TEXT_COLOR
                            (Linear.collect H today (document e)) e sl)
        by (unfold Linear.updateDecorations; rewrite He; reflexivity).
      rewrite E1.
      destruct (render_activeEditor jsnum jsnum_eqb jsnum_le0 Linear.calculateColor
                  Linear.TEXT_COLOR (Linear.collect H today (document e)) e sl)
        as (e1 & He1 & Hdoc).
      unfold Linear.updateDecorations. rewrite He1, Hdoc.
      exact (render_twice_registry jsnum jsnum_eqb jsnum_eqb_eq jsnum_le0
               Linear.calculateColor Linear.TEXT_COLOR
               (Linear.collect H today (document e)) e e1 sl Hl).
    + assert (E1 : Linear.updateDecorations H today sl = sl)
        by (unfold Linear.updateDecorations; rewrite He; reflexivity).
      rewrite !E1. repeat split; reflexivity.
  - destruct (activeEditor sf) as [e|] eqn:He.
    + assert (E1 : Fib.updateDecorations H today sf
                   = render Z.eqb (fun c => (c <=? 0)%Z) Fib.calculateColor Fib.TEXT_COLOR
                            (Fib.collect H today (document e)) e sf)
        by (unfold Fib.updateDecorations; rewrite He; reflexivity).
      rewrite E1.
      destruct (render_activeEditor Z Z.eqb (fun c => (c <=? 0)%Z) Fib.calculateColor
                  Fib.TEXT_COLOR (Fib.collect H today (document e)) e sf)
        as (e1 & He1 & Hdoc).
      unfold Fib.updateDecorations. rewrite He1, Hdoc.
      exact (render_twice_registry Z Z.eqb Z.eqb_eq (fun c => (c <=? 0)%Z)
               Fib.calculateColor Fib.TEXT_COLOR
               (Fib.collect H today (document e)) e e1 sf Hf).
    + assert (E1 : Fib.updateDecorations H today sf = sf)
        by (unfold Fib.updateDecorations; rewrite He; reflexivity).
      rewrite !E1. repeat split; reflexivity.
Qed.

Lemma repeating_an_update_allocates_nothing_witness :
  let e := {| document := T "2024-06-20 2024-08-05"; rendered := [] |} in
  let todayDay := daysFromCivil 2024 6 15 in
  let sl := setActiveEditor (Some e) Linear.moduleLoad in
  let sf := setActiveEditor (Some e) Fib.moduleLoad in
  Linear.lifetime sl /\ Fib.lifetime sf
  /\ length (created
               (Linear.updateDecorations strictUTC (msPerDay * todayDay)%Z
                  (Linear.updateDecorations strictUTC (msPerDay * todayDay)%Z sl))) = 3
  /\ length (created
               (Fib.updateDecorations strictUTC todayDay
                  (Fib.updateDecorations strictUTC todayDay sf))) = 3.
Proof.
  intros e todayDay sl sf.
  assert (Hl : Linear.lifetime sl) by (apply Linear_editor_lifetime; constructor).
  assert (Hf : Fib.lifetime sf) by (apply Fib_editor_lifetime; constructor).
  destruct (repeating_an_update_allocates_nothing sl sf strictUTC Hl Hf) as [Rl Rf].
  split; [exact Hl|]. split; [exact Hf|]. split.
  - destruct (Rl (msPerDay * todayDay)%Z) as (E & _). cbv zeta in E. rewrite E.
    vm_compute. reflexivity.
  - destruct (Rf todayDay) as (E & _). cbv zeta in E. rewrite E.
    vm_compute. reflexivity.
Defined.

(** ** Scheduling *)

Lemma trigger_throttled_arms : forall s,
    Scheduler.tracked s ->
    exists id,
      Scheduler.timeout (Scheduler.triggerUpdateDecorations true s) = Some id
      /\ Scheduler.armed (Scheduler.triggerUpdateDecorations true s)
         = [(id, Scheduler.clock s + 200)]
      /\ Scheduler.clock (Scheduler.triggerUpdateDecorations true s) = Scheduler.clock s
      /\ Scheduler.runs (Scheduler.triggerUpdateDecorations true s) = Scheduler.runs s.
Proof.
  intros [tm ar nx ck rs] Htr. unfold Scheduler.tracked in Htr. cbn in Htr.
  destruct Htr as [-> | (id & due & -> & ->)].
  - destruct tm; cbn; eexists; repeat split; reflexivity.
  - cbn. rewrite Nat.eqb_refl. cbn. eexists. repeat split; reflexivity.
Qed.

Lemma elapse_before_due : forall s id due dt,
    Scheduler.armed s = [(id, due)] -> Scheduler.clock s + dt < due ->
    Scheduler.elapse dt s
    = {| Scheduler.timeout := Scheduler.timeout s;
         Scheduler.armed := [(id, due)];
         Scheduler.nextId := Scheduler.nextId s;
         Scheduler.clock := Scheduler.clock s + dt;
         Scheduler.runs := Scheduler.runs s |}.
Proof.
  intros [tm ar nx ck rs] id due dt Ha Hlt. cbn in Ha, Hlt. subst ar.
  unfold Scheduler.elapse, Scheduler.fire. cbn.
  destruct (Nat.leb_spec due (ck + dt)); [lia|]. reflexivity.
Qed.

Lemma elapse_past_due : forall s id due dt,
    Scheduler.armed s = [(id, due)] -> due <= Scheduler.clock s + dt ->
    Scheduler.elapse dt s
    = {| Scheduler.timeout := Scheduler.timeout s;
         Scheduler.armed := [];
         Scheduler.nextId := Scheduler.nextId s;
         Scheduler.clock := Scheduler.clock s + dt;
         Scheduler.runs := Scheduler.runs s ++ [due] |}.
Proof.
  intros [tm ar nx ck rs] id due dt Ha Hle. cbn in Ha, Hle. subst ar.
  unfold Scheduler.elapse, Scheduler.fire. cbn.
  destruct (Nat.leb_spec due (ck + dt)); [|lia]. reflexivity.
Qed.

Lemma burst_from_armed : forall gaps s id d,
    Scheduler.timeout s = Some id ->
    Scheduler.armed s = [(id, Scheduler.clock s + 200)] ->
    Forall (fun g => g < 200) gaps ->
    200 <= d ->
    Scheduler.runs (Scheduler.run (burst gaps ++ [Scheduler.Elapse d]) s)
    = Scheduler.runs s ++ [Scheduler.clock s + list_sum gaps + 200]
    /\ Scheduler.armed (Scheduler.run (burst gaps ++ [Scheduler.Elapse d]) s) = [].
Proof.
  induction gaps as [|g gaps IH]; intros s id d Ht Ha Hg Hd.
  - cbn [burst app list_sum fold_right]. unfold Scheduler.run. cbn [fold_left Scheduler.handle].
    rewrite (elapse_past_due s id _ d Ha) by lia. cbn.
    split; [f_equal; f_equal; lia | reflexivity].
  - inversion Hg as [|? ? Hg1 Hg2]; subst.
    cbn [burst app]. unfold Scheduler.run. cbn [fold_left Scheduler.handle].
    rewrite (elapse_before_due s id _ g Ha) by lia.
    set (s1 := {| Scheduler.timeout := Scheduler.timeout s;
                  Scheduler.armed := [(id, Scheduler.clock s + 200)];
                  Scheduler.nextId := Scheduler.nextId s;
                  Scheduler.clock := Scheduler.clock s + g;
                  Scheduler.runs := Scheduler.runs s |}).
    assert (Htr : Scheduler.tracked s1).
    { right. exists id, (Scheduler.clock s + 200). split; [exact Ht | reflexivity]. }
    destruct (trigger_throttled_arms s1 Htr) as (id' & Ht' & Ha' & Hc' & Hr').
    fold (Scheduler.run (burst gaps ++ [Scheduler.Elapse d])
                        (Scheduler.triggerUpdateDecorations true s1)).
    destruct (IH (Scheduler.triggerUpdateDecorations true s1) id' d Ht') as [E1 E2].
    + rewrite Ha', Hc'. reflexivity.
    + exact Hg2.
    + exact Hd.
    + rewrite E1, E2, Hr', Hc'. subst s1. cbn [Scheduler.runs Scheduler.clock].
      change (list_sum (g :: gaps)) with (g + list_sum gaps).
      split; [f_equal; f_equal; lia | reflexivity].
Qed.

(** X17.  Debouncing.  A burst of throttled requests in which each request
    follows the one before by less than 200 ms leads to exactly one call of
    [updateDecorations], 200 ms after the last request of the burst, however
    long the burst is; no timer is left armed. *)
Theorem burst_of_requests_runs_once :
  forall (s : Scheduler.Sched) (gaps : list nat) (d : nat),
    Scheduler.tracked s ->
    Forall (fun g => g < Scheduler.QUIET_PERIOD) gaps ->
    Scheduler.QUIET_PERIOD <= d ->
    let s' := Scheduler.run (Scheduler.Trigger true :: burst gaps ++ [Scheduler.Elapse d]) s in
    Scheduler.runs s'
    = Scheduler.runs s ++ [Scheduler.clock s + list_sum gaps + Scheduler.QUIET_PERIOD]
    /\ Scheduler.armed s' = [].
Proof.
  intros s gaps d Htr Hg Hd s'. subst s'. unfold Scheduler.QUIET_PERIOD in *.
  unfold Scheduler.run. cbn [fold_left Scheduler.handle].
  fold (Scheduler.run (burst gaps ++ [Scheduler.Elapse d])
                      (Scheduler.triggerUpdateDecorations true s)).
  destruct (trigger_throttled_arms s Htr) as (id & Ht & Ha & Hc & Hr).
  destruct (burst_from_armed gaps (Scheduler.triggerUpdateDecorations true s) id d Ht)
    as [E1 E2].
  - rewrite Ha, Hc. reflexivity.
  - exact Hg.
  - exact Hd.
  - rewrite E1, E2, Hr, Hc. split; reflexivity.
Qed.

Lemma burst_of_requests_runs_once_witness :
  Scheduler.tracked Scheduler.start
  /\ Forall (fun g => g < Scheduler.QUIET_PERIOD) [150; 199; 10]
  /\ Scheduler.QUIET_PERIOD <= 500
  /\ Scheduler.runs
       (Scheduler.run (Scheduler.Trigger true :: burst [150; 199; 10]
                                              ++ [Scheduler.Elapse 500])
                      Scheduler.start)
     = [559].
Proof.
  assert (Htr : Scheduler.tracked Scheduler.start) by (left; reflexivity).
  assert (Hg : Forall (fun g => g < Scheduler.QUIET_PERIOD) [150; 199; 10])
    by (repeat constructor; unfold Scheduler.QUIET_PERIOD; lia).
  assert (Hd : Scheduler.QUIET_PERIOD <= 500) by (unfold Scheduler.QUIET_PERIOD; lia).
  destruct (burst_of_requests_runs_once Scheduler.start [150; 199; 10] 500 Htr Hg Hd)
    as [E _].
  split; [exact Htr|]. split; [exact Hg|]. split; [exact Hd|].
  rewrite E. reflexivity.
Defined.

Lemma elapse_idle : forall s dt,
    Scheduler.armed s = [] ->
    Scheduler.elapse dt s
    = {| Scheduler.timeout := Scheduler.timeout s;
         Scheduler.armed := [];
         Scheduler.nextId := Scheduler.nextId s;
         Scheduler.clock := Scheduler.clock s + dt;
         Scheduler.runs := Scheduler.runs s |}.
Proof.
  intros [tm ar nx ck rs] dt Ha. cbn in Ha. subst ar. reflexivity.
Qed.

Lemma fire_log : forall due s,
    Scheduler.runs (Scheduler.fire s due) = Scheduler.runs s ++ map snd due
    /\ Scheduler.armed (Scheduler.fire s due) = Scheduler.armed s.
Proof.
  induction due as [|p due IH]; intro s; unfold Scheduler.fire; cbn [fold_left map].
  - rewrite app_nil_r. split; reflexivity.
  - fold (Scheduler.fire (Scheduler.updateDecorations (snd p) s) due).
    destruct (IH (Scheduler.updateDecorations (snd p) s)) as [E1 E2].
    rewrite E1, E2. cbn. rewrite <- app_assoc. split; reflexivity.
Qed.

Lemma filter_partition_length : forall (A : Type) (p : A -> bool) l,
    length (filter p l) + length (filter (fun x => negb (p x)) l) = length l.
Proof.
  intros A p l. induction l as [|x l IH]; simpl; [reflexivity|].
  destruct (p x); simpl; lia.
Qed.

(** The invariant of the scheduler, kept by every listener. *)
Lemma pending_kept_by_trigger : forall throttle s,
    (Scheduler.armed s = []
     \/ exists id due, Scheduler.timeout s = Some id /\ Scheduler.armed s = [(id, due)]
                       /\ Scheduler.clock s < due <= Scheduler.clock s + 200) ->
    let s' := Scheduler.triggerUpdateDecorations throttle s in
    Scheduler.armed s' = []
    \/ exists id due, Scheduler.timeout s' = Some id /\ Scheduler.armed s' = [(id, due)]
                      /\ Scheduler.clock s' < due <= Scheduler.clock s' + 200.
Proof.
  intros throttle s Hinv s'. subst s'.
  assert (Htr : Scheduler.tracked s).
  { destruct Hinv as [E | (id & due & Ht & Ha & _)]; [left; exact E|].
    right. exists id, due. split; assumption. }
  destruct throttle.
  - destruct (trigger_throttled_arms s Htr) as (id & Ht & Ha & Hc & _).
    right. exists id, (Scheduler.clock s + 200). rewrite Hc.
    split; [exact Ht|]. split; [exact Ha | lia].
  - left. apply (immediate_trigger_cancels s Htr).
Qed.

Lemma pending_kept_by_elapse : forall dt s,
    (Scheduler.armed s = []
     \/ exists id due, Scheduler.timeout s = Some id /\ Scheduler.armed s = [(id, due)]
                       /\ Scheduler.clock s < due <= Scheduler.clock s + 200) ->
    let s' := Scheduler.elapse dt s in
    Scheduler.armed s' = []
    \/ exists id due, Scheduler.timeout s' = Some id /\ Scheduler.armed s' = [(id, due)]
                      /\ Scheduler.clock s' < due <= Scheduler.clock s' + 200.
Proof.
  intros dt s Hinv s'. subst s'.
  destruct Hinv as [E | (id & due & Ht & Ha & Hd)].
  - left. rewrite (elapse_idle s dt E). reflexivity.
  - destruct (Nat.le_gt_cases due (Scheduler.clock s + dt)) as [Hle|Hgt].
    + left. rewrite (elapse_past_due s id due dt Ha Hle). reflexivity.
    + right. exists id, due. rewrite (elapse_before_due s id due dt Ha Hgt). cbn.
      split; [exact Ht|]. split; [reflexivity | lia].
Qed.

Lemma pending_kept_by_dispatch : forall e c,
    (Scheduler.armed (Activation.scheduler c) = []
     \/ exists id due,
         Scheduler.timeout (Activation.scheduler c) = Some id
         /\ Scheduler.armed (Activation.scheduler c) = [(id, due)]
         /\ Scheduler.clock (Activation.scheduler c) < due
            <= Scheduler.clock (Activation.scheduler c) + 200) ->
    let s' := Activation.scheduler (Activation.dispatch c e) in
    Scheduler.armed s' = []
    \/ exists id due, Scheduler.timeout s' = Some id /\ Scheduler.armed s' = [(id, due)]
                      /\ Scheduler.clock s' < due <= Scheduler.clock s' + 200.
Proof.
  intros e c Hinv s'. subst s'. destruct e as [[d|] | d | [|] | dt];
    cbn [Activation.dispatch Activation.onDidChangeActiveTextEditor Activation.scheduler
         Scheduler.refreshCommand].
  - exact (pending_kept_by_trigger false _ Hinv).
  - exact Hinv.
  - unfold Activation.onDidChangeTextDocument.
    destruct (Activation.activeEditor c) as [shown|]; [|exact Hinv].
    destruct (Nat.eqb d shown); [|exact Hinv].
    cbn [Activation.scheduler]. exact (pending_kept_by_trigger true _ Hinv).
  - destruct Hinv as [E | (id & due & Ht & Ha & Hd)].
    + left. exact E.
    + right. exists id, due. split; [exact Ht|]. split; [exact Ha | exact Hd].
  - exact Hinv.
  - exact (pending_kept_by_elapse dt _ Hinv).
Qed.

Lemma session_pending : forall (w : option nat) (es : list Activation.hostEvent),
    let s := Activation.scheduler (Activation.session w es) in
    Scheduler.armed s = []
    \/ exists id due, Scheduler.timeout s = Some id
                      /\ Scheduler.armed s = [(id, due)]
                      /\ Scheduler.clock s < due <= Scheduler.clock s + 200.
Proof.
  intros w es. unfold Activation.session.
  assert (H0 : Scheduler.armed (Activation.scheduler (Activation.activate w)) = []).
  { destruct w; reflexivity. }
  generalize (Activation.activate w) (or_introl H0 :
    Scheduler.armed (Activation.scheduler (Activation.activate w)) = []
    \/ exists id due,
        Scheduler.timeout (Activation.scheduler (Activation.activate w)) = Some id
        /\ Scheduler.armed (Activation.scheduler (Activation.activate w)) = [(id, due)]
        /\ Scheduler.clock (Activation.scheduler (Activation.activate w)) < due
           <= Scheduler.clock (Activation.scheduler (Activation.activate w)) + 200).
  clear H0. induction es as [|e es IH]; intros c Hc.
  - exact Hc.
  - cbn [fold_left]. apply IH. apply pending_kept_by_dispatch. exact Hc.
Qed.

(** X18.  Throughout a session -- [activate] followed by any sequence of
    editor changes, text changes, refresh commands and passing time -- at
    most one timer is armed; it is the one the variable [timeout] refers to,
    and it is due later than now and at most 200 ms from now. *)
Theorem at_most_one_update_is_pending :
  forall (windowEditor : option nat) (es : list Activation.hostEvent),
    let s := Activation.scheduler (Activation.session windowEditor es) in
    Scheduler.tracked s
    /\ length (Scheduler.armed s) <= 1
    /\ forall id due, In (id, due) (Scheduler.armed s) ->
                      Scheduler.timeout s = Some id
                      /\ Scheduler.clock s < due <= Scheduler.clock s + Scheduler.QUIET_PERIOD.
Proof.
  intros w es s. subst s. unfold Scheduler.QUIET_PERIOD.
  pose proof (session_pending w es) as Hinv.
  cbv zeta in Hinv.
  destruct Hinv as [E | (id & due & Ht & Ha & Hd)].
  - rewrite E. split; [left; exact E|]. split; [cbn; lia|]. intros id due [].
  - rewrite Ha. split; [right; exists id, due; split; assumption|].
    split; [cbn; lia|].
    intros id' due' [Heq | []]. inversion Heq; subst. split; [exact Ht | exact Hd].
Qed.

(** X19.  [updateDecorations] is never called unless an update was asked
    for: the calls made so far and the timer still armed together never
    outnumber the events that ask for an update (an editor change to an
    editor, a text change, a refresh command with an editor), plus the
    first update of [activate] when it starts with an editor. *)
Theorem runs_never_outnumber_requests :
  forall (windowEditor : option nat) (es : list Activation.hostEvent),
    let s := Activation.scheduler (Activation.session windowEditor es) in
    length (Scheduler.runs s) + length (Scheduler.armed s)
    <= Activation.requests es + (match windowEditor with Some _ => 1 | None => 0 end).
Proof.
  intros w es s. subst s. unfold Activation.session.
  assert (Hstep : forall e c,
             length (Scheduler.runs (Activation.scheduler (Activation.dispatch c e)))
             + length (Scheduler.armed (Activation.scheduler (Activation.dispatch c e)))
             <= length (Scheduler.runs (Activation.scheduler c))
                + length (Scheduler.armed (Activation.scheduler c))
                + Activation.requests [e]).
  { assert (Htrig : forall b s,
               length (Scheduler.runs (Scheduler.triggerUpdateDecorations b s))
               + length (Scheduler.armed (Scheduler.triggerUpdateDecorations b s))
               <= length (Scheduler.runs s) + length (Scheduler.armed s) + 1).
    { intros b [tm ar nx ck rs].
      unfold Scheduler.TimerId in *.
      destruct b, tm as [id|]; cbn; rewrite ?length_app; cbn;
        try match goal with
            | |- context [@length ?A (filter ?p ar)] =>
                pose proof (filter_partition_length A p ar)
            end; unfold Scheduler.TimerId in *; lia. }
    intros e c. destruct e as [[d|] | d | [|] | dt];
      cbn [Activation.dispatch Activation.onDidChangeActiveTextEditor Activation.scheduler
           Activation.requests filter length Scheduler.refreshCommand].
    - pose proof (Htrig false (Activation.scheduler c)). lia.
    - lia.
    - unfold Activation.onDidChangeTextDocument.
      destruct (Activation.activeEditor c) as [shown|]; [|lia].
      destruct (Nat.eqb d shown); [|lia]. cbn [Activation.scheduler].
      pose proof (Htrig true (Activation.scheduler c)). lia.
    - cbn. rewrite length_app. cbn. lia.
    - lia.
    - unfold Scheduler.elapse.
      match goal with
      | |- context [Scheduler.fire ?s0 ?due] =>
          destruct (fire_log due s0) as [E1 E2]; rewrite E1, E2
      end.
      cbn. rewrite length_app, length_map.
      match goal with
      | |- context [@length ?A (filter ?p (Scheduler.armed (Activation.scheduler c)))] =>
          pose proof (filter_partition_length A p
                        (Scheduler.armed (Activation.scheduler c)))
      end.
      cbv beta in *. unfold Scheduler.TimerId in *. lia. }
  assert (H0 : length (Scheduler.runs (Activation.scheduler (Activation.activate w)))
               + length (Scheduler.armed (Activation.scheduler (Activation.activate w)))
               <= match w with Some _ => 1 | None => 0 end).
  { destruct w; cbn; lia. }
  revert H0. generalize (Activation.activate w).
  generalize (match w with Some _ => 1 | None => 0 end). intros n c.
  revert c n. induction es as [|e es IH]; intros c n Hc.
  - cbn. lia.
  - cbn [fold_left].
    assert (Hreq : Activation.requests (e :: es)
                   = Activation.requests [e] + Activation.requests es).
    { unfold Activation.requests. cbn [filter].
      destruct (match e with
                | Activation.ActiveEditorChanged (Some _) => true
                | Activation.TextChanged _ => true
                | Activation.RefreshCommand true => true
                | _ => false
                end); cbn; lia. }
    rewrite Hreq.
    pose proof (IH (Activation.dispatch c e) (n + Activation.requests [e])
                   ltac:(pose proof (Hstep e c); lia)).
    lia.
Qed.

(** X20.  A change of the active editor to an editor is served at once,
    whatever happened before in the session: [updateDecorations] is called
    at the current time and no timer stays armed. *)
Theorem editor_change_updates_at_once :
  forall (windowEditor : option nat) (es : list Activation.hostEvent) (editor : nat),
    let before := Activation.scheduler (Activation.session windowEditor es) in
    let after := Activation.scheduler
                   (Activation.session windowEditor
                      (es ++ [Activation.ActiveEditorChanged (Some editor)])) in
    Scheduler.runs after = Scheduler.runs before ++ [Scheduler.clock before]
    /\ Scheduler.armed after = []
    /\ Activation.activeEditor
         (Activation.session windowEditor
            (es ++ [Activation.ActiveEditorChanged (Some editor)])) = Some editor.
Proof.
  intros w es editor before after. subst before after.
  assert (Htr : Scheduler.tracked (Activation.scheduler (Activation.session w es))).
  { destruct (session_pending w es) as [E | (id & due & Ht & Ha & _)]; [left; exact E|].
    right. exists id, due. split; assumption. }
  unfold Activation.session in *. rewrite fold_left_app. cbn [fold_left Activation.dispatch].
  cbn [Activation.onDidChangeActiveTextEditor Activation.scheduler Activation.activeEditor].
  destruct (immediate_trigger_cancels _ Htr) as (E1 & E2 & _).
  split; [exact E1|]. split; [exact E2 | reflexivity].
Qed.

(** ** From dates to colours *)

Lemma hueOf_order : forall c1 c2,
    (c1 = 0%Z \/ In c1 Fib.FIBONACCI_BOUNDARIES) ->
    (c2 = 0%Z \/ In c2 Fib.FIBONACCI_BOUNDARIES) ->
    (c1 <= c2)%Z -> (Fib.hueOf c1 <= Fib.hueOf c2)%Z.
Proof.
  intros c1 c2 H1 H2 Hle.
  assert (Hpos : forall c, In c Fib.FIBONACCI_BOUNDARIES -> (0 < Fib.hueOf c)%Z).
  { intros c Hc. unfold Fib.FIBONACCI_BOUNDARIES in Hc. cbn [In] in Hc.
    repeat (destruct Hc as [Hc|Hc]; [subst c; vm_compute; reflexivity|]). contradiction. }
  destruct H1 as [-> | H1], H2 as [-> | H2].
  - lia.
  - pose proof (Hpos _ H2). change (Fib.hueOf 0) with 0%Z. lia.
  - pose proof (boundaries_range _ H1). lia.
  - destruct (Z.eq_dec c1 c2) as [-> | Hne]; [lia|].
    pose proof (fibonacci_hue_increases c1 c2 H1 H2 ltac:(lia)). lia.
Qed.

(** X21.  In the Fibonacci variant a later date never gets a lower category
    than an earlier one, nor a colour with a smaller hue: seen from the same
    day, categories and hues follow the order of the dates. *)
Theorem later_dates_never_get_a_lower_category :
  forall today date1 date2 : Z,
    (date1 <= date2)%Z ->
    let c1 := Fib.getFibonacciCategory (Fib.signedDiffDays today date1) in
    let c2 := Fib.getFibonacciCategory (Fib.signedDiffDays today date2) in
    (c1 <= c2)%Z /\ (Fib.hueOf c1 <= Fib.hueOf c2)%Z.
Proof.
  intros today d1 d2 Hle c1 c2. subst c1 c2.
  destruct (signedDiffDays_order today d1 d2 Hle) as [Hs _].
  destruct (getFibonacciCategory_order _ _ Hs) as [Hc _].
  split; [exact Hc|].
  apply hueOf_order; [apply getFibonacciCategory_produced
                     | apply getFibonacciCategory_produced | exact Hc].
Qed.

Lemma later_dates_never_get_a_lower_category_witness :
  let today := daysFromCivil 2024 6 14 in
  (today + 3 <= today + 40)%Z
  /\ (Fib.getFibonacciCategory (Fib.signedDiffDays today (today + 3))
      <= Fib.getFibonacciCategory (Fib.signedDiffDays today (today + 40)))%Z.
Proof.
  intro today. assert (H : (today + 3 <= today + 40)%Z) by lia.
  destruct (later_dates_never_get_a_lower_category today (today + 3) (today + 40) H)
    as [Hc _].
  split; [exact H | exact Hc].
Defined.
